(** * Amplitude event migration scripts: conversion and request bundling

    A shallow embedding of [scripts/convert_events.py] (field mapping,
    timestamp resolution, validation) and [scripts/bundle_requests.py]
    (payload size estimation and greedy batching), followed by the
    properties of the two scripts.

    Python values are modelled as follows.
    - [str] is a sequence of Unicode code points ([list N]).
    - A value produced by [json.loads] is a [json] tree; a [dict] keeps its
      insertion order (association list, first binding of a key wins).
    - [int] is [Z]; [float] is an IEEE binary64 ([PrimFloat.float]).
    - A call that may raise returns a [result]; [try]/[except] is a match
      on the exception raised.
    - Library functions whose code is not part of the scripts
      ([float.__repr__], [datetime.strptime], the local time zone rule,
      [int] applied to a [str]) are parameters of the definitions that call
      them; executable models of them are given for concrete runs. *)

From Stdlib Require Import ZArith NArith List String Ascii Bool Lia.
From Stdlib Require Import Floats Uint63 DecimalString.
Import ListNotations.

Open Scope Z_scope.

(* ================================================================= *)
(** ** Python values *)

Module Py.

(** A Python [str]: its code points. *)
Definition str : Type := list N.

(** The [str] written by an ASCII literal of the scripts. *)
Definition lit (x : string) : str :=
  map N_of_ascii (list_ascii_of_string x).

Fixpoint str_eqb (a b : str) : bool :=
  match a, b with
  | [], [] => true
  | x :: a', y :: b' => N.eqb x y && str_eqb a' b'
  | _, _ => false
  end.

(** [len(x)] *)
Definition len {A : Type} (l : list A) : Z := Z.of_nat (List.length l).

(** [len] of a text produced by the encoder. *)
Definition text_len (t : string) : Z := Z.of_nat (String.length t).

Inductive exn : Type :=
| ValueError
| TypeError
| OverflowError.

Inductive result (A : Type) : Type :=
| Ok (a : A)
| Raise (e : exn).

Arguments Ok {A} a.
Arguments Raise {A} e.

Definition bind {A B : Type} (m : result A) (k : A -> result B) : result B :=
  match m with
  | Ok a => k a
  | Raise e => Raise e
  end.

(** [except (ValueError, TypeError)] *)
Definition caught (e : exn) : bool :=
  match e with
  | ValueError | TypeError => true
  | OverflowError => false
  end.

(** [float(z)] for an integer that fits a C [long long]. *)
Definition float_of_Z (z : Z) : float :=
  if z <? 0 then PrimFloat.opp (PrimFloat.of_uint63 (Uint63.of_Z (- z)))
  else PrimFloat.of_uint63 (Uint63.of_Z z).

(** [int(f)]: truncation towards zero; [OverflowError] on an infinity,
    [ValueError] on a NaN. *)
Definition int_of_float (f : float) : result Z :=
  match Prim2SF f with
  | S754_zero _ => Ok 0
  | S754_infinity _ => Raise OverflowError
  | S754_nan => Raise ValueError
  | S754_finite sign m e =>
      let mag := Z.shiftl (Zpos m) e in
      Ok (if sign then - mag else mag)
  end.

End Py.

Notation "x <- m ;; k" := (Py.bind m (fun x => k))
(at level 61, m at next level, right associativity).

(* ================================================================= *)
(** ** JSON values and [json.dumps] *)

Module Json.
Import Py.

#[local] Set Warnings "-register-all".

Inductive json : Type :=
| JNull
| JBool (b : bool)
| JInt (z : Z)
| JFloat (f : float)
| JStr (s : str)
| JArr (items : list json)
| JObj (members : list (str * json)).

Definition dict : Type := list (str * json).

(** Truth value of a Python object ([if x:], [not x], [x and y]). *)
Definition truthy (v : json) : bool :=
  match v with
  | JNull => false
  | JBool b => b
  | JInt z => negb (z =? 0)
  | JFloat f => negb (PrimFloat.eqb f PrimFloat.zero)
  | JStr s => match s with [] => false | _ => true end
  | JArr l => match l with [] => false | _ => true end
  | JObj m => match m with [] => false | _ => true end
  end.

(** [d.get(k)]: [None] when the key is absent. *)
Fixpoint dict_get (d : dict) (k : str) : option json :=
  match d with
  | [] => None
  | (k', v) :: d' => if str_eqb k' k then Some v else dict_get d' k
  end.

(** [k in d] *)
Definition dict_contains (d : dict) (k : str) : bool :=
  match dict_get d k with Some _ => true | None => false end.

(** [d[k] = v]: an existing key keeps its place, a new one goes last. *)
Fixpoint dict_set (d : dict) (k : str) (v : json) : dict :=
  match d with
  | [] => [(k, v)]
  | (k', v') :: d' =>
      if str_eqb k' k then (k', v) :: d' else (k', v') :: dict_set d' k v
  end.

(** Truth value of [d.get(k)]. *)
Definition truthy_get (d : dict) (k : str) : bool :=
  match dict_get d k with Some v => truthy v | None => false end.

(** [value == ""] *)
Definition eq_empty_str (v : json) : bool :=
  match v with JStr [] => true | _ => false end.

(** [value == {}] *)
Definition eq_empty_dict (v : json) : bool :=
  match v with JObj [] => true | _ => false end.

(** [value is None] *)
Definition is_None (v : json) : bool :=
  match v with JNull => true | _ => false end.

(** *** String escaping ([json.encoder.py_encode_basestring_ascii]) *)

(** The double quote, code 34. *)
Definition dquote : ascii := "034"%char.

Definition hex_digit (n : N) : ascii :=
  match n with
  | 0%N => "0" | 1%N => "1" | 2%N => "2" | 3%N => "3"
  | 4%N => "4" | 5%N => "5" | 6%N => "6" | 7%N => "7"
  | 8%N => "8" | 9%N => "9" | 10%N => "a" | 11%N => "b"
  | 12%N => "c" | 13%N => "d" | 14%N => "e" | _ => "f"
  end%char.

(** ['\\u{0:04x}'.format(n)] *)
Definition u_escape (n : N) : string :=
  String "\" (String "u"
    (String (hex_digit (N.land (N.shiftr n 12) 15))
    (String (hex_digit (N.land (N.shiftr n 8) 15))
    (String (hex_digit (N.land (N.shiftr n 4) 15))
    (String (hex_digit (N.land n 15)) EmptyString))))).

(** The replacement of one code point: printable ASCII other than the
    quote and the backslash stands for itself, [ESCAPE_DCT] gives the
    short escapes, the rest is written as one or two [\uXXXX]. *)
Definition escape_char (c : N) : string :=
  if (c =? 34)%N then String "\" (String dquote EmptyString)
  else if (c =? 92)%N then String "\" (String "\" EmptyString)
  else if (c =? 10)%N then String "\" (String "n" EmptyString)
  else if (c =? 13)%N then String "\" (String "r" EmptyString)
  else if (c =? 9)%N then String "\" (String "t" EmptyString)
  else if (c =? 12)%N then String "\" (String "f" EmptyString)
  else if (c =? 8)%N then String "\" (String "b" EmptyString)
  else if ((32 <=? c) && (c <=? 126))%N then
    String (ascii_of_N c) EmptyString
  else if (c <? 65536)%N then u_escape c
  else
    let n := (c - 65536)%N in
    let s1 := N.lor 55296 (N.land (N.shiftr n 10) 1023) in
    let s2 := N.lor 56320 (N.land n 1023) in
    (u_escape s1 ++ u_escape s2)%string.

Fixpoint escape_chars (s : str) : string :=
  match s with
  | [] => EmptyString
  | c :: s' => (escape_char c ++ escape_chars s')%string
  end.

Definition py_encode_basestring_ascii (s : str) : string :=
  String dquote (escape_chars s ++ String dquote EmptyString)%string.

(** [int.__repr__] *)
Definition int_repr (z : Z) : string :=
  NilZero.string_of_int (Z.to_int z).

(** *** The encoder

    [json.dumps(obj, separators=(item_separator, key_separator))] with
    the other arguments at their defaults ([ensure_ascii=True],
    [allow_nan=True], no indentation, keys in insertion order).  With
    [ensure_ascii] the text is pure ASCII, so it is produced here
    directly as a byte string.  [float_repr] is the text the encoder
    writes for a float ([float.__repr__], and [NaN], [Infinity],
    [-Infinity]). *)
Section Encoder.
Variable float_repr : float -> string.
Variables item_separator key_separator : string.

Fixpoint encode (o : json) : string :=
  match o with
  | JNull => "null"
  | JBool true => "true"
  | JBool false => "false"
  | JInt z => int_repr z
  | JFloat f => float_repr f
  | JStr s => py_encode_basestring_ascii s
  | JArr items =>
      ("[" ++ String.concat item_separator (map encode items) ++ "]")%string
  | JObj members =>
      ("{" ++ String.concat item_separator
               (map (fun kv =>
                       py_encode_basestring_ascii (fst kv)
                       ++ key_separator ++ encode (snd kv))
                    members)
           ++ "}")%string
  end.
End Encoder.

(** [json.dumps(obj)]: the default separators are [", "] and [": "]. *)
Definition dumps (float_repr : float -> string) (obj : json) : string :=
  encode float_repr ", " ": " obj.

(** [json.dumps(obj, separators=(',', ':'))] *)
Definition dumps_compact (float_repr : float -> string) (obj : json) : string :=
  encode float_repr "," ":" obj.

End Json.

(* ================================================================= *)
(** ** [scripts/bundle_requests.py] *)

Module Bundle.
Import Py Json.

(** API limits *)
Definition MAX_EVENTS_PER_BATCH : Z := 2000.
Definition MAX_PAYLOAD_BYTES : Z := 20 * 1024 * 1024.
Definition SAFE_PAYLOAD_BYTES : Z := 19 * 1024 * 1024.

(** An element of the list read back by [read_all_events]: whatever
    [json.loads] returned for a line. *)
Definition event : Type := json.

Section WithFloatRepr.
Variable float_repr : float -> string.

Definition create_payload (api_key : str) (events : list event) : json :=
  JObj [(lit "api_key", JStr api_key); (lit "events", JArr events)].

(** [len(json.dumps(payload).encode('utf-8'))]: the text is ASCII, one
    byte per character. *)
Definition estimate_payload_size (api_key : str) (events : list event) : Z :=
  let payload := create_payload api_key events in
  text_len (dumps float_repr payload).

(** One iteration of the loop of [batch_events], on the pair
    [(batches, current_batch)]. *)
Definition batch_step (api_key : str)
    (st : list (list event) * list event) (ev : event)
    : list (list event) * list event :=
  let '(batches, current_batch) := st in
  let test_batch := (current_batch ++ [ev])%list in
  if MAX_EVENTS_PER_BATCH <? len test_batch then
    ((match current_batch with
      | [] => batches
      | _ => batches ++ [current_batch]
      end)%list,
     [ev])
  else if SAFE_PAYLOAD_BYTES <? estimate_payload_size api_key test_batch then
    ((match current_batch with
      | [] => batches
      | _ => batches ++ [current_batch]
      end)%list,
     [ev])
  else (batches, test_batch).

Definition batch_events (events : list event) (api_key : str)
    : list (list event) :=
  let '(batches, current_batch) :=
    fold_left (batch_step api_key) events ([], []) in
  match current_batch with
  | [] => batches
  | _ => (batches ++ [current_batch])%list
  end.

(** What [generate_curl_script] puts into the script of one batch: the
    values interpolated into the fixed template.  [script_payload_json] is
    the argument of [curl -d], the body of the request. *)
Record curl_script : Type := {
  script_batch_num : Z;
  script_endpoint : string;
  script_n_events : Z;
  script_payload_size : Z;
  script_payload_json : string
}.

Definition generate_curl_script (batch_num : Z) (api_key : str)
    (events : list event) (eu : bool) : curl_script :=
  let endpoint :=
    if eu then "https://api.eu.amplitude.com/batch"%string
    else "https://api2.amplitude.com/batch"%string in
  let payload := create_payload api_key events in
  let payload_json := dumps_compact float_repr payload in
  {| script_batch_num := batch_num;
     script_endpoint := endpoint;
     script_n_events := len events;
     script_payload_size := text_len payload_json;
     script_payload_json := payload_json |}.

(** The line printed for one batch by [main]: script, [len(batch)] and
    [payload_size]. *)
Record batch_report : Type := {
  report_script : curl_script;
  report_n_events : Z;
  report_payload_size : Z
}.

(** [for i, batch in enumerate(batches, 1): ...] *)
Fixpoint report_batches (i : Z) (batches : list (list event))
    (api_key : str) (eu : bool) : list batch_report :=
  match batches with
  | [] => []
  | batch :: rest =>
      let script := generate_curl_script i api_key batch eu in
      let payload_size := estimate_payload_size api_key batch in
      {| report_script := script;
         report_n_events := len batch;
         report_payload_size := payload_size |}
      :: report_batches (i + 1) rest api_key eu
  end.

(** The batching and script generation steps of [main], from the events
    read to the reports printed ([main] stops before them when there is
    no event). *)
Definition main_bundle (all_events : list event) (api_key : str) (eu : bool)
    : list batch_report :=
  match all_events with
  | [] => []
  | _ =>
      let batches := batch_events all_events api_key in
      report_batches 1 batches api_key eu
  end.

End WithFloatRepr.

(** An event that is too large on its own: its [event_type] is a text of
    [SAFE_PAYLOAD_BYTES] letters [a]. *)
Definition oversize_event : event :=
  JObj [(lit "event_type",
         JStr (repeat 97%N (Z.to_nat SAFE_PAYLOAD_BYTES)))].

(** *** Notions used to state and prove the properties *)

(** Closing the open batch after the loop of [batch_events]. *)
Definition close (st : list (list event) * list event) : list (list event) :=
  match snd st with
  | [] => fst st
  | _ => (fst st ++ [snd st])%list
  end.

(** The events held by a state of the loop, in order. *)
Definition held (st : list (list event) * list event) : list event :=
  (List.concat (fst st) ++ snd st)%list.

(** The number of separators the encoder writes for a value: one item
    separator between two neighbours of an array or an object, one key
    separator in each member of an object. *)
Fixpoint n_separators (o : json) : Z :=
  match o with
  | JArr items =>
      Z.of_nat (Nat.pred (List.length items))
      + fold_right Z.add 0 (map n_separators items)
  | JObj members =>
      Z.of_nat (Nat.pred (List.length members))
      + Z.of_nat (List.length members)
      + fold_right Z.add 0 (map (fun kv => n_separators (snd kv)) members)
  | _ => 0
  end.

End Bundle.

(* ================================================================= *)
(** ** [scripts/convert_events.py] *)

Module Convert.
Import Py Json.

(** Mapping from Export API field names to Upload API field names, in
    the order of the dictionary literal. *)
Definition FIELD_MAPPING : list (str * str) :=
  map (fun p => (lit (fst p), lit (snd p)))
    [ ("user_id", "user_id"); ("device_id", "device_id");
      ("event_type", "event_type");
      ("event_properties", "event_properties");
      ("user_properties", "user_properties");
      ("group_properties", "group_properties");
      ("groups", "groups");
      ("session_id", "session_id"); ("event_id", "event_id");
      ("insert_id", "insert_id");
      ("platform", "platform"); ("os_name", "os_name");
      ("os_version", "os_version"); ("device_brand", "device_brand");
      ("device_manufacturer", "device_manufacturer");
      ("device_model", "device_model"); ("device_type", "device_type");
      ("carrier", "carrier");
      ("country", "country"); ("region", "region"); ("city", "city");
      ("dma", "dma"); ("location_lat", "location_lat");
      ("location_lng", "location_lng");
      ("language", "language"); ("ip_address", "ip_address");
      ("library", "library"); ("app_version", "app_version");
      ("price", "price"); ("quantity", "quantity"); ("revenue", "revenue");
      ("productId", "productId"); ("revenueType", "revenueType");
      ("idfa", "idfa"); ("idfv", "idfv"); ("adid", "adid");
      ("android_id", "android_id") ]%string.

(** A naive [datetime.datetime]. *)
Record datetime : Type := {
  year : Z;
  month : Z;
  day : Z;
  hour : Z;
  minute : Z;
  second : Z;
  microsecond : Z
}.

(** The two formats handed to [datetime.strptime]. *)
Definition FORMAT_FRACTION : str := lit "%Y-%m-%d %H:%M:%S.%f".
Definition FORMAT_SECONDS : str := lit "%Y-%m-%d %H:%M:%S".

(** The timestamp fields, in order of preference. *)
Definition TIMESTAMP_FIELDS : list str :=
  [lit "event_time"; lit "client_event_time"; lit "server_received_time"].

(** Seconds from 0001-01-01T00:00:00 to 1970-01-01T00:00:00 (CPython's
    [epoch]). *)
Definition EPOCH_SECONDS : Z := 719163 * 24 * 60 * 60.

Section Environment.

(** [datetime.strptime(data, format)]; [None] when it raises
    [ValueError]. *)
Variable strptime : str -> str -> option datetime.

(** CPython's [local_to_seconds]: the naive date and time read in the
    local time zone of the process, in seconds since 0001-01-01T00:00:00
    UTC; [None] when it raises [ValueError] (year out of range). *)
Variable local_to_seconds : datetime -> option Z.

(** [int(s)] for a [str]; [None] when it raises [ValueError]. *)
Variable int_of_str : str -> option Z.

(** ["." in ts_str] *)
Definition contains_dot (ts_str : json) : result bool :=
  match ts_str with
  | JStr s => Ok (existsb (N.eqb 46) s)
  | JArr items =>
      Ok (existsb (fun v => match v with
                            | JStr [c] => N.eqb c 46
                            | _ => false
                            end) items)
  | JObj members => Ok (dict_contains members (lit "."))
  | JNull | JBool _ | JInt _ | JFloat _ => Raise TypeError
  end.

(** [datetime.strptime(ts_str, format)] *)
Definition datetime_strptime (ts_str : json) (format : str) : result datetime :=
  match ts_str with
  | JStr s =>
      match strptime s format with
      | Some dt => Ok dt
      | None => Raise ValueError
      end
  | _ => Raise TypeError
  end.

(** [dt.timestamp()] of a naive datetime. *)
Definition timestamp (dt : datetime) : result float :=
  match local_to_seconds dt with
  | Some seconds =>
      Ok (PrimFloat.add (float_of_Z (seconds - EPOCH_SECONDS))
            (PrimFloat.div (float_of_Z (microsecond dt)) (float_of_Z 1000000)))
  | None => Raise ValueError
  end.

(** The body of the [try] block, for the value [event[field]]. *)
Definition parse_field (ts_str : json) : result Z :=
  has_dot <- contains_dot ts_str ;;
  dt <- (if has_dot : bool
         then datetime_strptime ts_str FORMAT_FRACTION
         else datetime_strptime ts_str FORMAT_SECONDS) ;;
  t <- timestamp dt ;;
  int_of_float (PrimFloat.mul t (float_of_Z 1000)).

(** [int(event["time"])] *)
Definition py_int (v : json) : result Z :=
  match v with
  | JInt z => Ok z
  | JBool b => Ok (if b then 1 else 0)
  | JFloat f => int_of_float f
  | JStr s =>
      match int_of_str s with
      | Some z => Ok z
      | None => Raise ValueError
      end
  | JNull | JArr _ | JObj _ => Raise TypeError
  end.

(** The statements after the loop of [parse_timestamp]. *)
Definition numeric_fallback (event : dict) : result (option Z) :=
  match dict_get event (lit "time") with
  | Some v =>
      if truthy v then (z <- py_int v ;; Ok (Some z)) else Ok None
  | None => Ok None
  end.

(** The [for field in [...]] loop: [return] on the first field whose
    [try] block completes, [continue] on [ValueError] or [TypeError]. *)
Fixpoint timestamp_loop (fields : list str) (event : dict) : result (option Z) :=
  match fields with
  | [] => numeric_fallback event
  | field :: rest =>
      match dict_get event field with
      | Some v =>
          if truthy v then
            match parse_field v with
            | Ok ms => Ok (Some ms)
            | Raise e =>
                if caught e then timestamp_loop rest event else Raise e
            end
          else timestamp_loop rest event
      | None => timestamp_loop rest event
      end
  end.

Definition parse_timestamp (event : dict) : result (option Z) :=
  timestamp_loop TIMESTAMP_FIELDS event.

(** One iteration of the field-mapping loop of [convert_event]. *)
Definition map_field (export_event : dict) (upload_event : dict)
    (mapping : str * str) : dict :=
  let '(export_field, upload_field) := mapping in
  match dict_get export_event export_field with
  | Some value =>
      if is_None value then upload_event
      else if eq_empty_str value || eq_empty_dict value then upload_event
      else dict_set upload_event upload_field value
  | None => upload_event
  end.

(** The field-mapping loop: [upload_event] after it. *)
Definition map_fields (export_event : dict) : dict :=
  fold_left (map_field export_event) FIELD_MAPPING [].

(** [if timestamp:] on the value returned by [parse_timestamp]. *)
Definition truthy_timestamp (t : option Z) : bool :=
  match t with
  | Some z => negb (z =? 0)
  | None => false
  end.

Definition convert_event (export_event : dict) : result (option dict) :=
  let upload_event := map_fields export_event in
  timestamp <- parse_timestamp export_event ;;
  let upload_event :=
    match timestamp with
    | Some z =>
        if truthy_timestamp timestamp
        then dict_set upload_event (lit "time") (JInt z)
        else upload_event
    | None => upload_event
    end in
  let has_user_id := truthy_get upload_event (lit "user_id") in
  let has_device_id := truthy_get upload_event (lit "device_id") in
  let has_event_type := truthy_get upload_event (lit "event_type") in
  if negb (has_user_id || has_device_id) then Ok None
  else if negb has_event_type then Ok None
  else Ok (Some upload_event).

(** *** Notions used to state the properties *)

(** The field is present, true as a condition, and its [try] block
    completes with [ms]. *)
Definition resolves (event : dict) (field : str) (ms : Z) : Prop :=
  exists v,
    dict_get event field = Some v /\ truthy v = true /\ parse_field v = Ok ms.

(** The loop passes over the field: it is absent, false as a condition,
    or its [try] block raises an exception that the handler catches. *)
Definition skipped (event : dict) (field : str) : Prop :=
  match dict_get event field with
  | None => True
  | Some v =>
      truthy v = false
      \/ exists e, parse_field v = Raise e /\ caught e = true
  end.

(** What the field-mapping loop keeps of an export field. *)
Definition copied (export_event : dict) (export_field : str) : option json :=
  match dict_get export_event export_field with
  | Some value =>
      if is_None value || eq_empty_str value || eq_empty_dict value
      then None else Some value
  | None => None
  end.

(** The validation of [convert_event] fails on the record. *)
Definition rejected (upload_event : dict) : bool :=
  negb (truthy_get upload_event (lit "user_id")
        || truthy_get upload_event (lit "device_id"))
  || negb (truthy_get upload_event (lit "event_type")).

Fixpoint distinct (names : list str) : bool :=
  match names with
  | [] => true
  | name :: names' => negb (existsb (str_eqb name) names') && distinct names'
  end.

End Environment.

End Convert.

(* ================================================================= *)
(** ** Executable models of the library functions

    [strptime] follows CPython's [_strptime]: the format is turned into a
    regular expression (one group of ordered alternatives per directive,
    a run of white space becomes [\s+]), the expression is matched at the
    start of the data with backtracking, the match has to reach the end of
    the data, and the fields found are handed to the [datetime]
    constructor, which checks their ranges.  Only the directives of the
    two formats of [convert_events.py] are covered, and [\d] is read as an
    ASCII digit. *)

Module Library.
Import Py Json Convert.

(** [str.isspace] on one code point. *)
Definition is_space (c : N) : bool :=
  ((9 <=? c) && (c <=? 13) || (28 <=? c) && (c <=? 32)
   || (c =? 133) || (c =? 160) || (c =? 5760)
   || (8192 <=? c) && (c <=? 8202)
   || (c =? 8232) || (c =? 8233) || (c =? 8239) || (c =? 8287)
   || (c =? 12288))%N.

(** The class [[lo-hi]] of ASCII digits. *)
Definition digit_in (lo hi : N) (c : N) : bool :=
  ((48 + lo <=? c) && (c <=? 48 + hi))%N.

Definition is_digit : N -> bool := digit_in 0 9.

Definition char (x : N) (c : N) : bool := (c =? x)%N.

Inductive piece : Type :=
| Lit (c : N)
| Spaces
| Directive (name : N) (alternatives : list (list (N -> bool)))
| Fraction.

(** The regular expression of a directive ([TimeRE]). *)
Definition directive (d : N) : option piece :=
  if (d =? 89)%N then (* %Y *)
    Some (Directive d [[is_digit; is_digit; is_digit; is_digit]])
  else if (d =? 109)%N then (* %m *)
    Some (Directive d [[char 49; digit_in 0 2]; [char 48; digit_in 1 9];
                       [digit_in 1 9]])
  else if (d =? 100)%N then (* %d *)
    Some (Directive d [[char 51; digit_in 0 1]; [digit_in 1 2; is_digit];
                       [char 48; digit_in 1 9]; [digit_in 1 9];
                       [char 32; digit_in 1 9]])
  else if (d =? 72)%N then (* %H *)
    Some (Directive d [[char 50; digit_in 0 3]; [digit_in 0 1; is_digit];
                       [is_digit]])
  else if (d =? 77)%N then (* %M *)
    Some (Directive d [[digit_in 0 5; is_digit]; [is_digit]])
  else if (d =? 83)%N then (* %S *)
    Some (Directive d [[char 54; digit_in 0 1]; [digit_in 0 5; is_digit];
                       [is_digit]])
  else if (d =? 102)%N then (* %f *)
    Some Fraction
  else None.

(** [TimeRE.pattern]: [after_space] tells that the previous character of
    the format was white space, already turned into [\s+]. *)
Fixpoint pattern (after_space : bool) (format : str) : option (list piece) :=
  match format with
  | [] => Some []
  | c :: rest =>
      if (c =? 37)%N then
        match rest with
        | d :: rest' =>
            match directive d, pattern false rest' with
            | Some p, Some ps => Some (p :: ps)
            | _, _ => None
            end
        | [] => None
        end
      else if is_space c then
        match pattern true rest with
        | Some ps => Some (if after_space then ps else Spaces :: ps)
        | None => None
        end
      else
        match pattern false rest with
        | Some ps => Some (Lit c :: ps)
        | None => None
        end
  end.

(** A fixed sequence of character classes against the start of the data:
    the text matched and the rest. *)
Fixpoint match_classes (classes : list (N -> bool)) (data : str)
    : option (str * str) :=
  match classes with
  | [] => Some ([], data)
  | cl :: classes' =>
      match data with
      | x :: data' =>
          if cl x then
            match match_classes classes' data' with
            | Some (txt, rest) => Some (x :: txt, rest)
            | None => None
            end
          else None
      | [] => None
      end
  end.

(** The alternatives of a group in order; [k] is the rest of the
    expression, and a failure of [k] moves on to the next alternative. *)
Fixpoint first_alternative {R : Type} (alternatives : list (list (N -> bool)))
    (data : str) (k : str -> str -> option R) : option R :=
  match alternatives with
  | [] => None
  | alt :: alternatives' =>
      let here :=
        match match_classes alt data with
        | Some (txt, rest) => k txt rest
        | None => None
        end in
      match here with
      | Some r => Some r
      | None => first_alternative alternatives' data k
      end
  end.

(** [\s+]: the longest run first. *)
Fixpoint spaces_then {R : Type} (k : str -> option R) (data : str) : option R :=
  match data with
  | x :: data' =>
      if is_space x then
        match spaces_then k data' with
        | Some r => Some r
        | None => k data'
        end
      else None
  | [] => None
  end.

(** [[0-9]{1,n}]: the longest run first; [seen] is the text matched so
    far, last digit first. *)
Fixpoint digits_then {R : Type} (n : nat) (k : str -> str -> option R)
    (seen : str) (data : str) : option R :=
  match n with
  | O => None
  | S n' =>
      match data with
      | x :: data' =>
          if is_digit x then
            match digits_then n' k (x :: seen) data' with
            | Some r => Some r
            | None => k (rev (x :: seen)) data'
            end
          else None
      | [] => None
      end
  end.

(** [format_regex.match(data_string)]: the groups found, by directive,
    and the data left after the match. *)
Fixpoint match_pieces (ps : list piece) (data : str)
    : option (list (N * str) * str) :=
  match ps with
  | [] => Some ([], data)
  | Lit c :: ps' =>
      match data with
      | x :: data' => if (x =? c)%N then match_pieces ps' data' else None
      | [] => None
      end
  | Spaces :: ps' => spaces_then (match_pieces ps') data
  | Directive name alternatives :: ps' =>
      first_alternative alternatives data
        (fun txt rest =>
           match match_pieces ps' rest with
           | Some (found, remaining) => Some ((name, txt) :: found, remaining)
           | None => None
           end)
  | Fraction :: ps' =>
      digits_then 6
        (fun txt rest =>
           match match_pieces ps' rest with
           | Some (found, remaining) => Some ((102%N, txt) :: found, remaining)
           | None => None
           end) [] data
  end.

(** [int(found_dict[name])] for a group of digits (the day may start
    with a space, which [int] strips). *)
Definition digits_value (txt : str) : Z :=
  fold_left (fun acc c => if is_digit c then acc * 10 + (Z.of_N c - 48) else acc)
    txt 0.

Fixpoint group (found : list (N * str)) (name : N) : option str :=
  match found with
  | [] => None
  | (n, txt) :: found' => if (n =? name)%N then Some txt else group found' name
  end.

Definition group_value (found : list (N * str)) (name : N) (default : Z) : Z :=
  match group found name with
  | Some txt => digits_value txt
  | None => default
  end.

(** The fraction is padded with zeros on the right to six digits. *)
Definition fraction_value (found : list (N * str)) : Z :=
  match group found 102 with
  | Some txt => digits_value (txt ++ repeat 48%N (6 - List.length txt))%list
  | None => 0
  end.

Definition is_leap (y : Z) : bool :=
  (y mod 4 =? 0) && (negb (y mod 100 =? 0) || (y mod 400 =? 0)).

Definition days_in_month (y m : Z) : Z :=
  if m =? 2 then (if is_leap y then 29 else 28)
  else if (m =? 4) || (m =? 6) || (m =? 9) || (m =? 11) then 30
  else 31.

(** The range checks of the [datetime] constructor. *)
Definition valid_datetime (dt : datetime) : bool :=
  (1 <=? year dt) && (year dt <=? 9999)
  && (1 <=? month dt) && (month dt <=? 12)
  && (1 <=? day dt) && (day dt <=? days_in_month (year dt) (month dt))
  && (0 <=? hour dt) && (hour dt <=? 23)
  && (0 <=? minute dt) && (minute dt <=? 59)
  && (0 <=? second dt) && (second dt <=? 59)
  && (0 <=? microsecond dt) && (microsecond dt <=? 999999).

Definition strptime (data : str) (format : str) : option datetime :=
  match pattern false format with
  | Some ps =>
      match match_pieces ps data with
      | Some (found, []) =>
          let dt :=
            {| year := group_value found 89 1900;
               month := group_value found 109 1;
               day := group_value found 100 1;
               hour := group_value found 72 0;
               minute := group_value found 77 0;
               second := group_value found 83 0;
               microsecond := fraction_value found |} in
          if valid_datetime dt then Some dt else None
      | _ => None
      end
  | None => None
  end.

(** CPython's [days_before_year], [days_before_month], [ymd_to_ord] and
    [utc_to_seconds]. *)
Definition days_before_year (y : Z) : Z :=
  let y' := y - 1 in
  y' * 365 + y' / 4 - y' / 100 + y' / 400.

Definition days_before_month (y m : Z) : Z :=
  nth (Z.to_nat m) [0; 0; 31; 59; 90; 120; 151; 181; 212; 243; 273; 304; 334] 0
  + (if (2 <? m) && is_leap y then 1 else 0).

Definition ymd_to_ord (y m d : Z) : Z :=
  days_before_year y + days_before_month y m + d.

Definition utc_to_seconds (dt : datetime) : Z :=
  let ordinal := ymd_to_ord (year dt) (month dt) (day dt) in
  ((ordinal * 24 + hour dt) * 60 + minute dt) * 60 + second dt.

(** [local_to_seconds] in a zone that stays [utcoffset] seconds east of
    UTC all year (the range errors at the ends of the calendar are left
    out). *)
Definition local_to_seconds (utcoffset : Z) (dt : datetime) : option Z :=
  Some (utc_to_seconds dt - utcoffset).

(** [int(s)] on ASCII text: white space stripped on both sides, an
    optional sign, decimal digits with single underscores between them. *)
Fixpoint strip_left (s : str) : str :=
  match s with
  | c :: s' => if is_space c then strip_left s' else s
  | [] => []
  end.

Definition strip (s : str) : str := rev (strip_left (rev (strip_left s))).

(** Digits after the first one: [after_digit] tells whether the previous
    character was a digit (an underscore must stand between two). *)
Fixpoint int_digits (after_digit : bool) (acc : Z) (s : str) : option Z :=
  match s with
  | [] => if after_digit then Some acc else None
  | c :: s' =>
      if is_digit c then int_digits true (acc * 10 + (Z.of_N c - 48)) s'
      else if (c =? 95)%N && after_digit then int_digits false acc s'
      else None
  end.

Definition int_of_str (s : str) : option Z :=
  match strip s with
  | c :: s' =>
      if (c =? 45)%N then option_map Z.opp (int_digits false 0 s')
      else if (c =? 43)%N then int_digits false 0 s'
      else int_digits false 0 (c :: s')
  | [] => None
  end.

(** For runs on values that hold no float: the text of a float is never
    asked for. *)
Definition float_repr_unused (f : float) : string := "0.0"%string.

(** *** Records used in the concrete runs *)

(** The record of the first example of the specification. *)
Definition login_event : dict :=
  [ (lit "event_time", JStr (lit "2024-01-15 10:30:45.123456"));
    (lit "user_id", JStr (lit "u1"));
    (lit "event_type", JStr (lit "login")) ].

(** A record whose only field is a [time] of 0. *)
Definition epoch_event : dict := [ (lit "time", JInt 0) ].

(** A record whose [event_time] is written with slashes. *)
Definition slash_event : dict :=
  [ (lit "event_time", JStr (lit "15/01/2024"));
    (lit "client_event_time", JStr (lit "2024-01-15 10:30:45"));
    (lit "time", JInt 7) ].

(** A purchase with no group and a quantity of 0. *)
Definition purchase_event : dict :=
  [ (lit "user_id", JStr (lit "u1"));
    (lit "event_type", JStr (lit "purchase"));
    (lit "groups", JArr []);
    (lit "quantity", JInt 0) ].

End Library.

From Stdlib Require Import DecimalPos DecimalZ FinFun.

(* ================================================================= *)
(** ** Further notions about batches *)

Module Batches.
Import Py Json Bundle.

Section WithFloatRepr.
Variable float_repr : float -> string.
Variable api_key : str.

(** The event does not fit the batch: appending it breaks the count
    limit or the size limit (the two tests of [batch_events]). *)
Definition no_room (batch : list event) (ev : event) : Prop :=
  MAX_EVENTS_PER_BATCH < len (batch ++ [ev])%list
  \/ SAFE_PAYLOAD_BYTES
     < estimate_payload_size float_repr api_key (batch ++ [ev])%list.

(** Every batch but the last was closed because the first event of the
    next one did not fit it. *)
Fixpoint greedy (batches : list (list event)) : Prop :=
  match batches with
  | b1 :: rest =>
      match rest with
      | b2 :: _ =>
          match b2 with
          | ev :: _ => no_room b1 ev
          | [] => False
          end
          /\ greedy rest
      | [] => True
      end
  | [] => True
  end.

End WithFloatRepr.

End Batches.

(* ================================================================= *)
(** ** Further notions about converted records *)

Module Records.
Import Py Json Convert.

(** The entry that the field-mapping loop adds for a mapping: the target
    with the value kept of the source, or nothing. *)
Definition kept (export_event : dict) (mapping : str * str) : dict :=
  match copied export_event (fst mapping) with
  | Some value => [(snd mapping, value)]
  | None => []
  end.

(** The keys of a raw event that [convert_event] reads: the sources of
    the mapping, the three timestamp fields and [time]. *)
Definition relevant_keys : list str :=
  (map fst FIELD_MAPPING ++ TIMESTAMP_FIELDS ++ [lit "time"])%list.

(** The raw event with one more field put in front of it. *)
Definition with_field (k : str) (v : json) (event : dict) : dict :=
  (k, v) :: event.

(** The record that [login_event] is converted to where the local time
    is UTC. *)
Definition login_record : dict :=
  [ (lit "user_id", JStr (lit "u1"));
    (lit "event_type", JStr (lit "login"));
    (lit "time", JInt 1705314645123) ].

End Records.

(* ================================================================= *)
(** ** The script written by [generate_curl_script] *)

Module Script.
Import Py Json Bundle.

Definition newline : ascii := "010"%char.
Definition squote : ascii := "039"%char.
Definition backslash : ascii := "092"%char.

(** [payload_json.replace("'", "'\\''")]: every single quote becomes the
    four characters quote, backslash, quote, quote. *)
Fixpoint shell_escape (payload_json : string) : string :=
  match payload_json with
  | EmptyString => EmptyString
  | String c rest =>
      if Ascii.eqb c squote
      then String squote (String backslash (String squote (String squote
             (shell_escape rest))))
      else String c (shell_escape rest)
  end.

(** The three lines of the curl command in the template, for the
    endpoint and the payload of a script. *)
Definition curl_command (script : curl_script) : string :=
  ("curl -X POST '" ++ script_endpoint script ++ "' \"
   ++ String newline
     ("  -H 'Content-Type: application/json' \"
      ++ String newline
        ("  -d '" ++ shell_escape (script_payload_json script) ++ "'")))%string.

(** [script_content]: the text written to the file. *)
Definition script_content (script : curl_script) : string :=
  ("#!/bin/bash" ++ String newline
     ("# Batch " ++ int_repr (script_batch_num script) ++ ": "
      ++ int_repr (script_n_events script) ++ " events"
      ++ String newline
        ("# Payload size: " ++ int_repr (script_payload_size script)
         ++ " bytes" ++ String newline (String newline
           (curl_command script ++ String newline (String newline
              ("echo " ++ String dquote (String dquote (String newline
                 ("echo " ++ String dquote
                    ("Batch " ++ int_repr (script_batch_num script)
                     ++ " complete"
                     ++ String dquote (String newline EmptyString)))))))))))
  )%string.

(** [f"{batch_num:04d}"]: the digits padded with zeros on the left to a
    width of four, the sign first. *)
Definition format_04d (batch_num : Z) : string :=
  let digits := int_repr (Z.abs batch_num) in
  let sign := if batch_num <? 0 then "-"%string else EmptyString in
  let width := (String.length sign + String.length digits)%nat in
  (sign ++ string_of_list_ascii (repeat "0"%char (4 - width)) ++ digits)%string.

(** The name of the script file, [f"batch_{batch_num:04d}.sh"]. *)
Definition script_name (batch_num : Z) : string :=
  ("batch_" ++ format_04d batch_num ++ ".sh")%string.

(** Reading a run of decimal digits as a number (leading zeros
    allowed); [None] when a character is not a digit. *)
Definition read_digits (digits : string) : option Z :=
  option_map Z.of_uint (NilEmpty.uint_of_string digits).

End Script.

(* ================================================================= *)
(** ** A model of the shell's reading of a command

    The words of a simple command as a POSIX shell reads them, for
    commands made of plain characters, blanks, single-quoted strings,
    backslash escapes and backslash-newline continuations.  Any other
    character outside quotes is outside the model ([None]), and so are a
    quote that is not closed and a trailing backslash. *)

Module Shell.
Import Script.

(** Characters that stand for themselves outside quotes. *)
Definition plain (c : ascii) : bool :=
  let n := N_of_ascii c in
  ((48 <=? n) && (n <=? 57) || (65 <=? n) && (n <=? 90)
   || (97 <=? n) && (n <=? 122)
   || (n =? 45) || (n =? 46) || (n =? 47) || (n =? 58) || (n =? 95))%N.

Definition blank (c : ascii) : bool :=
  let n := N_of_ascii c in ((n =? 32) || (n =? 9))%N.

(** Appending a character to the word being read; a word starts with its
    first character or quote. *)
Definition push (word : option string) (c : ascii) : option string :=
  match word with
  | Some w => Some (w ++ String c EmptyString)%string
  | None => Some (String c EmptyString)
  end.

Definition finish (word : option string) (words : list string) : list string :=
  match word with
  | Some w => w :: words
  | None => words
  end.

(** [words] holds the words completed so far, last first. *)
Fixpoint scan (quoted : bool) (word : option string) (words : list string)
    (text : string) : option (list string) :=
  match text with
  | EmptyString => if quoted then None else Some (rev (finish word words))
  | String c rest =>
      if quoted then
        if Ascii.eqb c squote then scan false word words rest
        else scan true (push word c) words rest
      else if Ascii.eqb c squote then
        scan true (match word with Some w => Some w | None => Some EmptyString end)
          words rest
      else if Ascii.eqb c backslash then
        match rest with
        | String d rest' =>
            if Ascii.eqb d newline then scan false word words rest'
            else scan false (push word d) words rest'
        | EmptyString => None
        end
      else if blank c then scan false None (finish word words) rest
      else if plain c then scan false (push word c) words rest
      else None
  end.

Definition sh_words (command : string) : option (list string) :=
  scan false None [] command.

End Shell.

(* ================================================================= *)
(** ** Reading and writing the files of events

    [process_json_file] of [convert_events.py], the lines that [main]
    of [convert_events.py] writes, and [read_all_events] of
    [bundle_requests.py].  A file is given by its decoded text;
    [json.loads] is a parameter. *)

Module Files.
Import Py Json Convert Records.

(** The lines that iterating over a text file yields (universal
    newlines: a line ends after [\n], [\r\n] or [\r], each read as
    [\n]; a last line without an end is yielded as it is).  [line] holds
    the characters of the current line, last first. *)
Fixpoint file_lines_from (line : str) (text : str) : list str :=
  match text with
  | [] => match line with [] => [] | _ => [rev line] end
  | c :: rest =>
      if (c =? 10)%N then rev (10%N :: line) :: file_lines_from [] rest
      else if (c =? 13)%N then
        match rest with
        | d :: rest' =>
            if (d =? 10)%N then rev (10%N :: line) :: file_lines_from [] rest'
            else rev (10%N :: line) :: file_lines_from [] rest
        | [] => [rev (10%N :: line)]
        end
      else file_lines_from (c :: line) rest
  end.

Definition file_lines (text : str) : list str := file_lines_from [] text.

(** [needle in haystack] for two [str]: a substring test. *)
Fixpoint starts_with (needle haystack : str) : bool :=
  match needle, haystack with
  | [], _ => true
  | c :: needle', d :: haystack' => (c =? d)%N && starts_with needle' haystack'
  | _ :: _, [] => false
  end.

Fixpoint is_substring (needle haystack : str) : bool :=
  starts_with needle haystack
  || match haystack with
     | [] => false
     | _ :: haystack' => is_substring needle haystack'
     end.

(** [key in value] for whatever [json.loads] returned. *)
Definition key_in (key : str) (value : json) : result bool :=
  match value with
  | JObj members => Ok (dict_contains members key)
  | JArr items =>
      Ok (existsb (fun item => match item with
                               | JStr s => str_eqb s key
                               | _ => false
                               end) items)
  | JStr s => Ok (is_substring key s)
  | JNull | JBool _ | JInt _ | JFloat _ => Raise TypeError
  end.

(** The membership tests of [convert_event] and [parse_timestamp] on a
    value that is not a dictionary, in the order they are made: the
    sources of the mapping, the three timestamp fields, [time].  A test
    on a number, a boolean or [None] raises [TypeError]; a test that
    succeeds on an array or a text is followed by [value[key]], which
    raises [TypeError]; when no test succeeds nothing is copied, no
    timestamp is found and the validation returns [None]. *)
Fixpoint convert_other_from (keys : list str) (value : json)
    : result (option dict) :=
  match keys with
  | [] => Ok None
  | key :: keys' =>
      found <- key_in key value ;;
      if found : bool then Raise TypeError else convert_other_from keys' value
  end.

(** The exceptions that leave [process_json_file] and
    [read_all_events]: those of the conversion, and [RecursionError],
    which [json.loads] raises on a nesting that is too deep. *)
Inductive exception : Type :=
| Builtin (e : exn)
| RecursionError.

(** What [json.loads] does with a text: it returns a value, raises
    [json.JSONDecodeError], or raises another exception, which the
    handlers of the two functions do not catch ([ValueError] on an
    integer of more digits than [int] accepts, [RecursionError]). *)
Inductive loaded : Type :=
| Loaded (value : json)
| JSONDecodeError
| LoadsRaises (e : exception).

Inductive outcome (A : Type) : Type :=
| Completed (a : A)
| Failed (e : exception).

Arguments Completed {A} a.
Arguments Failed {A} e.

Section WithLibrary.
Variable loads : str -> loaded.
Variable strptime : str -> str -> option datetime.
Variable local_to_seconds : datetime -> option Z.
Variable int_of_str : str -> option Z.

(** [convert_event(export_event)] for whatever [json.loads] returned. *)
Definition convert_value (export_event : json) : result (option dict) :=
  match export_event with
  | JObj members => convert_event strptime local_to_seconds int_of_str members
  | _ => convert_other_from relevant_keys export_event
  end.

(** One iteration of the loop of [process_json_file], on the pair of
    [converted] and [skipped]: only [json.JSONDecodeError] is caught. *)
Definition process_line (st : list dict * Z) (line : str)
    : outcome (list dict * Z) :=
  let '(converted, skipped) := st in
  match Library.strip line with
  | [] => Completed (converted, skipped)
  | stripped =>
      match loads stripped with
      | Loaded export_event =>
          match convert_value export_event with
          | Ok (Some (entry :: entries)) =>
              Completed ((converted ++ [entry :: entries])%list, skipped)
          | Ok (Some []) | Ok None => Completed (converted, skipped + 1)
          | Raise e => Failed (Builtin e)
          end
      | JSONDecodeError => Completed (converted, skipped + 1)
      | LoadsRaises e => Failed e
      end
  end.

Fixpoint process_lines (lines : list str) (st : list dict * Z)
    : outcome (list dict * Z) :=
  match lines with
  | [] => Completed st
  | line :: lines' =>
      match process_line st line with
      | Completed st' => process_lines lines' st'
      | Failed e => Failed e
      end
  end.

(** [process_json_file]: the list returned and the number of skipped
    lines printed. *)
Definition process_json_file (text : str) : outcome (list dict * Z) :=
  process_lines (file_lines text) ([], 0).

(** One iteration of the inner loop of [read_all_events]: only
    [json.JSONDecodeError] is caught. *)
Definition read_line (all_events : list json) (line : str)
    : outcome (list json) :=
  match Library.strip line with
  | [] => Completed all_events
  | stripped =>
      match loads stripped with
      | Loaded event => Completed (all_events ++ [event])%list
      | JSONDecodeError => Completed all_events
      | LoadsRaises e => Failed e
      end
  end.

(** The inner loop, over the lines of one file. *)
Fixpoint read_lines (lines : list str) (all_events : list json)
    : outcome (list json) :=
  match lines with
  | [] => Completed all_events
  | line :: lines' =>
      match read_line all_events line with
      | Completed all_events' => read_lines lines' all_events'
      | Failed e => Failed e
      end
  end.

(** The outer loop, over the files. *)
Fixpoint read_files (files : list str) (all_events : list json)
    : outcome (list json) :=
  match files with
  | [] => Completed all_events
  | text :: files' =>
      match read_lines (file_lines text) all_events with
      | Completed all_events' => read_files files' all_events'
      | Failed e => Failed e
      end
  end.

(** [read_all_events], given the texts of the [*.json] files of the
    input directory in sorted order. *)
Definition read_all_events (files : list str) : outcome (list json) :=
  read_files files [].

End WithLibrary.

(** The text that [main] of [convert_events.py] writes for a list of
    converted events: [json.dumps(event) + "\n"] for each. *)
Definition converted_text (float_repr : float -> string) (events : list dict)
    : str :=
  List.concat
    (map (fun event => (lit (dumps float_repr (JObj event)) ++ [10%N])%list)
       events).

(** *** Values for concrete runs *)

(** A reader that knows the texts of a table and raises
    [json.JSONDecodeError] on every other text. *)
Fixpoint loads_known (known : list (str * loaded)) (text : str) : loaded :=
  match known with
  | [] => JSONDecodeError
  | (t, r) :: known' => if str_eqb t text then r else loads_known known' text
  end.

(** The text written for [login_record] and for [purchase_event]. *)
Definition login_line : str :=
  lit (dumps Library.float_repr_unused (JObj login_record)).
Definition purchase_line : str :=
  lit (dumps Library.float_repr_unused (JObj Library.purchase_event)).

(** The text of [login_event] as an export line (compact). *)
Definition login_export_line : str :=
  lit (dumps_compact Library.float_repr_unused (JObj Library.login_event)).

(** A file of three lines: an event, a blank line, a line that is not
    JSON. *)
Definition export_text : str :=
  (login_export_line ++ [10%N] ++ [32%N; 10%N] ++ lit "oops" ++ [10%N])%list.

(** The line of a record whose [time] is an array. *)
Definition bad_time_line : str :=
  lit (dumps_compact Library.float_repr_unused
         (JObj [(lit "time", JArr [JInt 1])])).

(** An integer of 4301 digits, more than [int] converts from a text:
    [json.loads] raises [ValueError] on it. *)
Definition long_integer : str := repeat 49%N 4301.

(** A file whose second line is that integer. *)
Definition long_integer_text : str :=
  (login_export_line ++ [10%N] ++ long_integer ++ [10%N])%list.

(** Notions used to state the properties. *)

(** The line counts: it is not blank. *)
Definition counted (line : str) : bool :=
  match Library.strip line with [] => false | _ => true end.

(** Every character of the text is printable ASCII. *)
Definition printable (text : string) : Prop :=
  Forall (fun c => (32 <= N_of_ascii c <= 126)%N) (list_ascii_of_string text).

End Files.

(* ================================================================= *)
(** ** [scripts/export_data.py] *)

Module ExportData.
Import Py Json.

(** [bytes]: the values of the bytes, each below 256. *)
Definition bytes : Type := list N.

(** *** [str.encode()] and [base64.b64encode] *)

(** The UTF-8 bytes of one code point; [None] for a surrogate, on which
    [str.encode] raises [UnicodeEncodeError]. *)
Definition utf8_char (c : N) : option bytes :=
  if (c <? 128)%N then Some [c]
  else if (c <? 2048)%N then
    Some [192 + N.shiftr c 6; 128 + N.land c 63]%N
  else if ((55296 <=? c) && (c <=? 57343))%N then None
  else if (c <? 65536)%N then
    Some [224 + N.shiftr c 12; 128 + N.land (N.shiftr c 6) 63;
          128 + N.land c 63]%N
  else
    Some [240 + N.shiftr c 18; 128 + N.land (N.shiftr c 12) 63;
          128 + N.land (N.shiftr c 6) 63; 128 + N.land c 63]%N.

Fixpoint utf8_encode (s : str) : option bytes :=
  match s with
  | [] => Some []
  | c :: s' =>
      match utf8_char c, utf8_encode s' with
      | Some b, Some bs => Some (b ++ bs)%list
      | _, _ => None
      end
  end.

(** The character of a six-bit value in the standard alphabet. *)
Definition b64_char (n : N) : ascii :=
  if (n <? 26)%N then ascii_of_N (65 + n)
  else if (n <? 52)%N then ascii_of_N (97 + (n - 26))
  else if (n <? 62)%N then ascii_of_N (48 + (n - 52))
  else if (n =? 62)%N then "+"%char
  else "/"%char.

Definition pad : ascii := "="%char.

(** [base64.b64encode]: three bytes give four characters; one or two
    bytes left at the end give two or three characters and padding. *)
Fixpoint b64encode (data : bytes) : string :=
  match data with
  | [] => EmptyString
  | a :: data1 =>
      match data1 with
      | [] =>
          String (b64_char (a / 4))
            (String (b64_char ((a mod 4) * 16))
               (String pad (String pad EmptyString)))
      | b :: data2 =>
          match data2 with
          | [] =>
              String (b64_char (a / 4))
                (String (b64_char ((a mod 4) * 16 + b / 16))
                   (String (b64_char ((b mod 16) * 4))
                      (String pad EmptyString)))
          | c :: data3 =>
              String (b64_char (a / 4))
                (String (b64_char ((a mod 4) * 16 + b / 16))
                   (String (b64_char ((b mod 16) * 4 + c / 64))
                      (String (b64_char (c mod 64)) (b64encode data3))))
          end
      end
  end%N.

(** [get_auth_header]: [ValueError] stands for the [UnicodeEncodeError]
    (one of its subclasses) that [credentials.encode()] raises. *)
Definition get_auth_header (api_key secret_key : str) : result string :=
  let credentials := (api_key ++ 58%N :: secret_key)%list in
  match utf8_encode credentials with
  | Some encoded_bytes => Ok ("Basic " ++ b64encode encoded_bytes)%string
  | None => Raise ValueError
  end.

(** *** [export_data] *)

(** What [urlopen] and [response.read()] give: the body, or an
    [HTTPError] with its code and reason. *)
Inductive response : Type :=
| Body (data : bytes)
| HTTPError (code : Z) (reason : str).

(** How [export_data] ends: it returns the data, or calls
    [sys.exit(1)], or an exception of [get_auth_header] leaves it. *)
Inductive ending : Type :=
| Returns (data : bytes)
| Exits (status : Z)
| Raises (e : exn).

(** [f"{base_url}/api/2/export?start={start}&end={end}"] *)
Definition export_url (start end_ : str) (eu : bool) : str :=
  let base_url :=
    if eu then lit "https://analytics.eu.amplitude.com"
    else lit "https://amplitude.com" in
  (base_url ++ lit "/api/2/export?start=" ++ start ++ lit "&end=" ++ end_)%list.

(** [export_data], given the answer of the server: the lines printed
    and the ending. *)
Definition export_data (api_key secret_key start end_ : str) (eu : bool)
    (answer : response) : list str * ending :=
  let url := export_url start end_ eu in
  match get_auth_header api_key secret_key with
  | Raise e => ([], Raises e)
  | Ok header =>
      let printed :=
        [ (lit "Auth header: " ++ lit header)%list;
          (lit "Exporting data from " ++ start ++ lit " to " ++ end_
           ++ lit "...")%list;
          (lit "URL: " ++ url)%list ] in
      match answer with
      | Body data => (printed, Returns data)
      | HTTPError code reason =>
          let message :=
            if code =? 400 then
              lit "Error 400: Export file exceeds 4GB limit. Try a smaller date range."
            else if code =? 404 then
              lit "Error 404: No data found for the specified date range."
            else if code =? 504 then
              lit "Error 504: Request timeout. Try a smaller date range."
            else
              (lit "HTTP Error " ++ lit (int_repr code) ++ lit ": " ++ reason)%list
          in
          ((printed ++ [message])%list, Exits 1)
      end
  end.

(** *** [extract_to_folder] *)

(** [text.endswith(suffix)] *)
Definition ends_with (suffix text : str) : bool :=
  Files.starts_with (rev suffix) (rev text).

(** The parts of a POSIX path: the runs between slashes, without the
    empty ones and the single dots. [part] holds the current run, last
    character first; [close_part] ends it. *)
Definition close_part (part : str) (tail : list str) : list str :=
  match part with
  | [] => tail
  | _ => if str_eqb part (lit ".") then tail else rev part :: tail
  end.

Fixpoint path_parts_from (part : str) (path : str) : list str :=
  match path with
  | [] => close_part part []
  | c :: path' =>
      if (c =? 47)%N then close_part part (path_parts_from [] path')
      else path_parts_from (c :: part) path'
  end.

(** [Path(path).name]: the last part, or the empty text. *)
Definition path_name (path : str) : str :=
  last (path_parts_from [] path) [].

(** The index of the last dot of a name, counted from the left. *)
Fixpoint rfind_dot (name : str) : option nat :=
  match name with
  | [] => None
  | c :: name' =>
      match rfind_dot name' with
      | Some i => Some (S i)
      | None => if (c =? 46)%N then Some O else None
      end
  end.

(** [Path(path).stem] (CPython up to 3.12): the name without its last
    suffix; a dot that starts or ends the name opens no suffix. *)
Definition path_stem (path : str) : str :=
  let name := path_name path in
  match rfind_dot name with
  | Some i =>
      if (0 <? i)%nat && (i <? List.length name - 1)%nat
      then firstn i name else name
  | None => name
  end.

Section WithGzip.
(** [gzip.decompress]; [None] when it raises. *)
Variable gzip_decompress : bytes -> option bytes.

(** [zf.read(name)]: the data of the last member of that name. *)
Fixpoint zip_read (archive : list (str * bytes)) (name : str) : option bytes :=
  match archive with
  | [] => None
  | (n, data) :: archive' =>
      match zip_read archive' name with
      | Some later => Some later
      | None => if str_eqb n name then Some data else None
      end
  end.

(** [open(output_dir / name, 'wb')] and the write: the file lands in
    the folder under [name]; a name that is [.] or [..] designates a
    directory, on which [open] raises. *)
Definition write_file (files : list (str * bytes)) (name : str) (data : bytes)
    : option (list (str * bytes)) :=
  if str_eqb name (lit ".") || str_eqb name (lit "..") then None
  else Some (files ++ [(name, data)])%list.

(** One iteration of the loop of [extract_to_folder], on the writes made
    so far and [json_count]: the writes made after it, and the count, or
    [None] when an exception leaves the loop. The files written before
    an exception stay in the folder. *)
Definition extract_member (archive : list (str * bytes))
    (st : list (str * bytes) * Z) (zip_info : str)
    : list (str * bytes) * option Z :=
  let '(files, json_count) := st in
  match zip_read archive zip_info with
  | None => (files, None)
  | Some file_data =>
      if ends_with (lit ".json.gz") zip_info then
        match gzip_decompress file_data with
        | Some decompressed =>
            match write_file files (path_stem zip_info) decompressed with
            | Some files' => (files', Some (json_count + 1))
            | None => (files, None)
            end
        | None => (files, None)
        end
      else if ends_with (lit ".json") zip_info then
        match write_file files (path_name zip_info) file_data with
        | Some files' => (files', Some (json_count + 1))
        | None => (files, None)
        end
      else if ends_with (lit ".gz") zip_info then
        match gzip_decompress file_data with
        | Some decompressed =>
            match write_file files (path_stem zip_info) decompressed with
            | Some files' => (files', Some (json_count + 1))
            | None => (files, None)
            end
        | None => (files, None)
        end
      else (files, Some json_count)
  end.

Fixpoint extract_members (archive : list (str * bytes)) (names : list str)
    (st : list (str * bytes) * Z) : list (str * bytes) * option Z :=
  match names with
  | [] => (fst st, Some (snd st))
  | zip_info :: names' =>
      match extract_member archive st zip_info with
      | (files', Some json_count') =>
          extract_members archive names' (files', json_count')
      | (files', None) => (files', None)
      end
  end.

(** [extract_to_folder], given the members of the archive in the order
    of [zf.namelist()]: the writes made, in order, and the count
    returned, or [None] when the function raises. *)
Definition extract_to_folder (archive : list (str * bytes))
    : list (str * bytes) * option Z :=
  extract_members archive (map fst archive) ([], 0).

End WithGzip.

(** *** Notions used to state the properties *)

(** The value of a character of the alphabet. *)
Definition b64_index (c : ascii) : option N :=
  let n := N_of_ascii c in
  if ((65 <=? n) && (n <=? 90))%N then Some (n - 65)%N
  else if ((97 <=? n) && (n <=? 122))%N then Some (n - 97 + 26)%N
  else if ((48 <=? n) && (n <=? 57))%N then Some (n - 48 + 52)%N
  else if (n =? 43)%N then Some 62%N
  else if (n =? 47)%N then Some 63%N
  else None.

(** Decoding standard base64 with padding (RFC 4648): four characters
    give three bytes; padding may only end the text. *)
Fixpoint b64decode (text : string) : option bytes :=
  match text with
  | EmptyString => Some []
  | String c1 (String c2 (String c3 (String c4 rest))) =>
      match b64_index c1, b64_index c2 with
      | Some s1, Some s2 =>
          if Ascii.eqb c3 pad then
            if Ascii.eqb c4 pad then
              match rest with
              | EmptyString => Some [s1 * 4 + s2 / 16]%N
              | _ => None
              end
            else None
          else
            match b64_index c3 with
            | Some s3 =>
                if Ascii.eqb c4 pad then
                  match rest with
                  | EmptyString =>
                      Some [s1 * 4 + s2 / 16; (s2 mod 16) * 16 + s3 / 4]%N
                  | _ => None
                  end
                else
                  match b64_index c4, b64decode rest with
                  | Some s4, Some tail =>
                      Some ((s1 * 4 + s2 / 16)
                            :: ((s2 mod 16) * 16 + s3 / 4)
                            :: ((s3 mod 4) * 64 + s4) :: tail)%N
                  | _, _ => None
                  end
            | None => None
            end
      | _, _ => None
      end
  | _ => None
  end.

(** A member is extracted: its name ends in [.json] or in [.gz]. *)
Definition extracted (zip_info : str) : bool :=
  ends_with (lit ".json") zip_info || ends_with (lit ".gz") zip_info.

(** The name under which an extracted member is written. *)
Definition written_name (zip_info : str) : str :=
  if ends_with (lit ".json") zip_info then path_name zip_info
  else path_stem zip_info.

(** An archive for concrete runs: a member in a folder, a member that is
    not extracted, and a member whose name climbs out of the folder. *)
Definition sample_archive : list (str * bytes) :=
  [ (lit "2024/01/events.json", [123%N; 125%N]);
    (lit "readme.txt", [104%N; 105%N]);
    (lit "../../events.json", [91%N; 93%N]) ].

(** An archive whose second member is not a gzip file, whatever its
    name says. *)
Definition broken_archive : list (str * bytes) :=
  [ (lit "/tmp/events.json", [123%N; 125%N]);
    (lit "more.json.gz", [0%N]);
    (lit "last.json", [91%N; 93%N]) ].

(** A file name that designates an entry of the folder itself: not
    empty, no slash, neither [.] nor [..]. *)
Definition plain_name (name : str) : Prop :=
  name <> [] /\ ~ In 47%N name /\ name <> lit "." /\ name <> lit "..".

End ExportData.

(* ================================================================= *)
(** ** Lengths of encoded texts *)

Section EncodedLength.
Import Py Json Bundle.

(** Induction on a JSON value with the hypothesis available for every
    item of an array and every member of an object. *)
Lemma json_induction (P : json -> Prop) :
  P JNull ->
  (forall b, P (JBool b)) ->
  (forall z, P (JInt z)) ->
  (forall f, P (JFloat f)) ->
  (forall s, P (JStr s)) ->
  (forall items, (forall v, In v items -> P v) -> P (JArr items)) ->
  (forall members, (forall k v, In (k, v) members -> P v) -> P (JObj members)) ->
  forall o, P o.
Proof.
  intros Hnull Hbool Hint Hfloat Hstr Harr Hobj.
  fix self 1.
  intros [ | b | z | f | s | items | members ].
  - exact Hnull.
  - apply Hbool.
  - apply Hint.
  - apply Hfloat.
  - apply Hstr.
  - apply Harr.
    induction items as [|v items IH]; intros w Hw.
    + destruct Hw.
    + destruct Hw as [<- | Hw]; [apply self | exact (IH w Hw)].
  - apply Hobj.
    induction members as [|[k v] members IH]; intros k' w Hw.
    + destruct Hw.
    + destruct Hw as [Heq | Hw]; [|exact (IH k' w Hw)].
      injection Heq as _ <-. apply self.
Qed.

Lemma text_len_app (a b : string) :
  text_len (a ++ b) = text_len a + text_len b.
Proof.
  unfold text_len. induction a as [|c a IH]; cbn [append String.length].
  - lia.
  - rewrite !Nat2Z.inj_succ. lia.
Qed.

Lemma text_len_String (c : ascii) (a : string) :
  text_len (String c a) = 1 + text_len a.
Proof. unfold text_len; cbn [String.length]. lia. Qed.

Lemma text_len_nonneg (a : string) : 0 <= text_len a.
Proof. unfold text_len. lia. Qed.

(** The total length of a list of texts. *)
Abbreviation total texts := (fold_right Z.add 0 (map text_len texts)).

Lemma total_nonneg (texts : list string) : 0 <= total texts.
Proof.
  induction texts as [|t texts IH]; cbn [map fold_right]; [lia|].
  pose proof (text_len_nonneg t). lia.
Qed.

Lemma total_app (a b : list string) : total (a ++ b) = total a + total b.
Proof.
  induction a as [|t a IH]; cbn [app map fold_right]; lia.
Qed.

(** [sep.join(texts)] is as long as the texts plus one separator between
    two neighbours. *)
Lemma text_len_concat (sep : string) (texts : list string) :
  text_len (String.concat sep texts)
  = total texts + text_len sep * Z.of_nat (Nat.pred (List.length texts)).
Proof.
  induction texts as [|t texts IH]; [cbn; lia|].
  destruct texts as [|t' texts].
  - cbn. lia.
  - change (String.concat sep (t :: t' :: texts))
      with (t ++ sep ++ String.concat sep (t' :: texts))%string.
    rewrite !text_len_app, IH.
    cbn [map fold_right List.length Nat.pred].
    rewrite Nat2Z.inj_succ. lia.
Qed.

Lemma text_len_concat_app_l (sep : string) (a b : list string) :
  text_len (String.concat sep a) <= text_len (String.concat sep (a ++ b)).
Proof.
  rewrite !text_len_concat, total_app, length_app.
  pose proof (total_nonneg b). pose proof (text_len_nonneg sep).
  assert (Z.of_nat (Nat.pred (List.length a))
          <= Z.of_nat (Nat.pred (List.length a + List.length b))) by lia.
  nia.
Qed.

Lemma text_len_concat_app_r (sep : string) (a b : list string) :
  text_len (String.concat sep b) <= text_len (String.concat sep (a ++ b)).
Proof.
  rewrite !text_len_concat, total_app, length_app.
  pose proof (total_nonneg a). pose proof (text_len_nonneg sep).
  assert (Z.of_nat (Nat.pred (List.length b))
          <= Z.of_nat (Nat.pred (List.length a + List.length b))) by lia.
  nia.
Qed.

Lemma n_separators_nonneg (o : json) : 0 <= n_separators o.
Proof.
  induction o as [ | | | | | items IH | members IH ] using json_induction;
    cbn [n_separators]; try lia.
  - assert (0 <= fold_right Z.add 0 (map n_separators items)); [|lia].
    induction items as [|v items IHl]; cbn [map fold_right]; [lia|].
    pose proof (IH v (or_introl eq_refl)).
    assert (0 <= fold_right Z.add 0 (map n_separators items));
      [apply IHl; intros w Hw; apply IH; now right | lia].
  - assert (0 <= fold_right Z.add 0
                   (map (fun kv => n_separators (snd kv)) members)); [|lia].
    induction members as [|[k v] members IHl]; cbn [map fold_right snd]; [lia|].
    pose proof (IH k v (or_introl eq_refl)).
    assert (0 <= fold_right Z.add 0
                   (map (fun kv => n_separators (snd kv)) members));
      [apply IHl; intros k' w Hw; apply (IH k'); now right | lia].
Qed.

Variable float_repr : float -> string.

(** The default separators cost one byte more each than the compact
    ones; everything else in the two texts has the same length. *)
Lemma dumps_length (o : json) :
  text_len (dumps float_repr o)
  = text_len (dumps_compact float_repr o) + n_separators o.
Proof.
  unfold dumps, dumps_compact.
  induction o as [ | | | | | items IH | members IH ] using json_induction;
    cbn [encode n_separators]; try lia.
  - rewrite !text_len_app, !text_len_concat, !length_map.
    assert (Hsum :
      total (map (encode float_repr ", " ": ") items)
      = total (map (encode float_repr "," ":") items)
        + fold_right Z.add 0 (map n_separators items)).
    { induction items as [|v items IHl]; cbn [map fold_right]; [lia|].
      rewrite (IH v (or_introl eq_refl)), IHl; [lia|].
      intros w Hw; apply IH; now right. }
    rewrite Hsum. change (text_len ", ") with 2. change (text_len ",") with 1.
    lia.
  - rewrite !text_len_app, !text_len_concat, !length_map.
    assert (Hsum :
      total (map (fun kv => py_encode_basestring_ascii (fst kv) ++ ": "
                            ++ encode float_repr ", " ": " (snd kv))%string
                 members)
      = total (map (fun kv => py_encode_basestring_ascii (fst kv) ++ ":"
                              ++ encode float_repr "," ":" (snd kv))%string
                   members)
        + Z.of_nat (List.length members)
        + fold_right Z.add 0 (map (fun kv => n_separators (snd kv)) members)).
    { induction members as [|[k v] members IHl];
        cbn [map fold_right fst snd List.length]; [lia|].
      rewrite !text_len_app, (IH k v (or_introl eq_refl)), IHl.
      - change (text_len ": ") with 2. change (text_len ":") with 1.
        rewrite Nat2Z.inj_succ. lia.
      - intros k' w Hw; apply (IH k'); now right. }
    rewrite Hsum. change (text_len ", ") with 2. change (text_len ",") with 1.
    lia.
Qed.

Variable api_key : str.

Abbreviation size := (estimate_payload_size float_repr api_key).

(** The estimate of a batch is the estimate of the empty batch plus the
    length of the joined texts of its events. *)
Lemma estimate_payload_size_events (events : list event) :
  size events
  = size []
    + text_len (String.concat ", " (map (encode float_repr ", " ": ") events)).
Proof.
  unfold estimate_payload_size, create_payload, dumps.
  cbn [encode map fst snd String.concat].
  rewrite !text_len_app. change (text_len "") with 0. lia.
Qed.

Lemma estimate_payload_size_app_l (a b : list event) :
  size a <= size (a ++ b).
Proof.
  rewrite (estimate_payload_size_events a), (estimate_payload_size_events (a ++ b)).
  rewrite map_app. apply Z.add_le_mono_l, text_len_concat_app_l.
Qed.

Lemma estimate_payload_size_app_r (a b : list event) :
  size b <= size (a ++ b).
Proof.
  rewrite (estimate_payload_size_events b), (estimate_payload_size_events (a ++ b)).
  rewrite map_app. apply Z.add_le_mono_l, text_len_concat_app_r.
Qed.

End EncodedLength.

(* ================================================================= *)
(** ** Properties of [batch_events] *)

Section BatchEvents.
Import Py Json Bundle.

Variable float_repr : float -> string.
Variable api_key : str.

Abbreviation step := (batch_step float_repr api_key).
Abbreviation size := (estimate_payload_size float_repr api_key).

Lemma batch_events_unfold (events : list event) :
  batch_events float_repr events api_key
  = close (fold_left step events ([], [])).
Proof.
  unfold batch_events, close.
  destruct (fold_left step events ([], [])) as [batches current].
  reflexivity.
Qed.

(** The three outcomes of one iteration: the event joins the open batch,
    or the open batch is closed (when it is not empty) and the event
    opens the next one. *)
Lemma batch_step_cases (batches : list (list event)) (current : list event)
    (ev : event) :
  (step (batches, current) ev = (batches, current ++ [ev])%list
   /\ len (current ++ [ev])%list <= MAX_EVENTS_PER_BATCH
   /\ size (current ++ [ev])%list <= SAFE_PAYLOAD_BYTES)
  \/ (step (batches, current) ev = (batches, [ev]) /\ current = [])
  \/ (step (batches, current) ev = ((batches ++ [current])%list, [ev])
      /\ current <> []
      /\ (MAX_EVENTS_PER_BATCH < len (current ++ [ev])%list
          \/ SAFE_PAYLOAD_BYTES < size (current ++ [ev])%list)).
Proof.
  unfold batch_step.
  destruct (MAX_EVENTS_PER_BATCH <? len (current ++ [ev])%list) eqn:Hcount.
  - apply Z.ltb_lt in Hcount.
    destruct current as [|e0 rest].
    + right; left; split; reflexivity.
    + right; right; split; [reflexivity | split; [discriminate | left; exact Hcount]].
  - apply Z.ltb_ge in Hcount.
    destruct (SAFE_PAYLOAD_BYTES <? size (current ++ [ev])%list) eqn:Hsize.
    + apply Z.ltb_lt in Hsize.
      destruct current as [|e0 rest].
      * right; left; split; reflexivity.
      * right; right; split; [reflexivity | split; [discriminate | right; exact Hsize]].
    + apply Z.ltb_ge in Hsize. left; auto.
Qed.

Lemma held_step (st : list (list event) * list event) (ev : event) :
  held (step st ev) = (held st ++ [ev])%list.
Proof.
  destruct st as [batches current]; unfold held.
  destruct (batch_step_cases batches current ev)
    as [[-> _] | [[-> ->] | [-> _]]]; cbn [fst snd].
  - now rewrite app_assoc.
  - now rewrite app_nil_r.
  - rewrite concat_app; cbn [List.concat]. now rewrite app_nil_r.
Qed.

Lemma held_fold (events : list event) :
  forall st, held (fold_left step events st) = (held st ++ events)%list.
Proof.
  induction events as [|ev events IH]; intros st; cbn [fold_left].
  - now rewrite app_nil_r.
  - rewrite IH, held_step, <- app_assoc. reflexivity.
Qed.

Lemma concat_close (st : list (list event) * list event) :
  List.concat (close st) = held st.
Proof.
  destruct st as [batches [|e current]]; unfold close, held; cbn [fst snd].
  - now rewrite app_nil_r.
  - rewrite concat_app; cbn [List.concat]. now rewrite app_nil_r.
Qed.

(** A property of batches that holds of every one-event batch and is kept
    when an event that fits is appended holds of every batch emitted. *)
Section Invariant.
Variable P : list event -> Prop.
Hypothesis P_single : forall ev, P [ev].
Hypothesis P_fits :
  forall current ev,
    P current ->
    len (current ++ [ev])%list <= MAX_EVENTS_PER_BATCH ->
    size (current ++ [ev])%list <= SAFE_PAYLOAD_BYTES ->
    P (current ++ [ev])%list.

Abbreviation state_ok st :=
  (Forall P (fst st) /\ (snd st = [] \/ P (snd st))).

Lemma state_ok_step (st : list (list event) * list event) (ev : event) :
  state_ok st -> state_ok (step st ev).
Proof.
  destruct st as [batches current]; intros [Hb Hc]; cbn [fst snd] in *.
  destruct (batch_step_cases batches current ev)
    as [[-> [Hn Hs]] | [[-> ->] | [-> [Hne _]]]]; split; cbn [fst snd]; auto.
  - right. destruct Hc as [-> | Hc]; [apply P_single | now apply P_fits].
  - apply Forall_app; split; [assumption|].
    constructor; [|constructor]. destruct Hc; [contradiction | assumption].
Qed.

Lemma state_ok_fold (events : list event) :
  forall st, state_ok st -> state_ok (fold_left step events st).
Proof.
  induction events as [|ev events IH]; intros st Hst; cbn [fold_left].
  - exact Hst.
  - apply IH, state_ok_step, Hst.
Qed.

Lemma batch_events_Forall (events : list event) :
  Forall P (batch_events float_repr events api_key).
Proof.
  rewrite batch_events_unfold.
  assert (Hok : state_ok (fold_left step events ([], []))).
  { apply state_ok_fold. split; cbn; [constructor | now left]. }
  destruct (fold_left step events ([], [])) as [batches current].
  destruct Hok as [Hb Hc]; unfold close; cbn [fst snd] in *.
  destruct current as [|e rest]; [assumption|].
  apply Forall_app; split; [assumption|].
  constructor; [|constructor]. destruct Hc; [discriminate | assumption].
Qed.
End Invariant.

(** C1. Concatenating the batches returned by [batch_events], in the
    order they are emitted, gives back the input list: same events, same
    order, each in exactly one batch; hence the batch counts add up to
    the length of the input. *)
Theorem batch_events_concat (events : list event) :
  List.concat (batch_events float_repr events api_key) = events
  /\ fold_right Z.add 0 (map len (batch_events float_repr events api_key))
     = len events.
Proof.
  assert (Hc : List.concat (batch_events float_repr events api_key) = events).
  { rewrite batch_events_unfold, concat_close, held_fold. reflexivity. }
  split; [exact Hc|].
  rewrite <- Hc at 2.
  generalize (batch_events float_repr events api_key) as batches.
  induction batches as [|b batches IH]; cbn [map fold_right List.concat].
  - reflexivity.
  - unfold len in *. rewrite length_app, Nat2Z.inj_add, IH. reflexivity.
Qed.

(** C4. No batch returned by [batch_events] holds more than
    [MAX_EVENTS_PER_BATCH] = 2000 events. *)
Theorem batch_events_count_limit (events : list event) :
  MAX_EVENTS_PER_BATCH = 2000
  /\ Forall (fun batch => len batch <= MAX_EVENTS_PER_BATCH)
       (batch_events float_repr events api_key).
Proof.
  split; [reflexivity|].
  apply batch_events_Forall.
  - intros ev. unfold len, MAX_EVENTS_PER_BATCH. cbn. lia.
  - intros current ev _ Hn _. exact Hn.
Qed.

(** C3. Every batch returned by [batch_events] either has an estimated
    payload size of at most [SAFE_PAYLOAD_BYTES], or consists of one
    event whose payload alone is estimated above that limit. *)
Theorem batch_events_size_limit (events : list event) :
  Forall (fun batch =>
            size batch <= SAFE_PAYLOAD_BYTES
            \/ exists ev, batch = [ev] /\ SAFE_PAYLOAD_BYTES < size [ev])
    (batch_events float_repr events api_key).
Proof.
  apply batch_events_Forall.
  - intros ev.
    destruct (Z_le_gt_dec (size [ev]) SAFE_PAYLOAD_BYTES) as [Hle | Hgt].
    + now left.
    + right. exists ev. split; [reflexivity | lia].
  - intros current ev _ _ Hs. now left.
Qed.

(** C10. [batch_events] never emits an empty batch, and returns no batch
    at all for the empty list. *)
Theorem batch_events_nonempty (events : list event) :
  Forall (fun batch => batch <> []) (batch_events float_repr events api_key)
  /\ batch_events float_repr [] api_key = [].
Proof.
  split; [|reflexivity].
  apply batch_events_Forall.
  - intros ev; discriminate.
  - intros current ev _ _ _ H. now destruct current.
Qed.

End BatchEvents.

(* ================================================================= *)
(** ** The estimate against the request body, and oversize events *)

Section PayloadSize.
Import Py Json Bundle.

Variable float_repr : float -> string.

(** C2, as amended. [estimate_payload_size] is the length of the payload
    written with the default separators, while the body that
    [generate_curl_script] hands to curl is the same payload (same keys in
    the same order, same escaping) written with the compact separators.
    The estimate exceeds the length of the body by one byte for each
    separator, hence by at least three bytes: it never underestimates. *)
Theorem estimate_payload_size_overestimates
    (api_key : str) (events : list event) (batch_num : Z) (eu : bool) :
  script_payload_json (generate_curl_script float_repr batch_num api_key events eu)
  = dumps_compact float_repr (create_payload api_key events)
  /\ estimate_payload_size float_repr api_key events
     = text_len (script_payload_json
                   (generate_curl_script float_repr batch_num api_key events eu))
       + n_separators (create_payload api_key events)
  /\ text_len (script_payload_json
                 (generate_curl_script float_repr batch_num api_key events eu))
     + 3 <= estimate_payload_size float_repr api_key events.
Proof.
  assert (Heq : estimate_payload_size float_repr api_key events
                = text_len (dumps_compact float_repr (create_payload api_key events))
                  + n_separators (create_payload api_key events)).
  { unfold estimate_payload_size. apply dumps_length. }
  cbn [generate_curl_script script_payload_json].
  split; [reflexivity | split; [exact Heq|]].
  rewrite Heq. unfold create_payload.
  cbn [n_separators List.length Nat.pred map fold_right snd].
  pose proof (n_separators_nonneg (JArr events)) as Hnn.
  cbn [n_separators] in Hnn. lia.
Qed.

Variable api_key : str.

Abbreviation step := (batch_step float_repr api_key).
Abbreviation size := (estimate_payload_size float_repr api_key).

(** A batch closed during the loop is part of the result. *)
Lemma closed_batch_emitted (batch : list event) (events : list event) :
  forall st, In batch (fst st) -> In batch (close (fold_left step events st)).
Proof.
  induction events as [|ev events IH]; intros [batches current] Hin;
    cbn [fold_left fst] in *.
  - unfold close; cbn [fst snd]. destruct current; [assumption|].
    apply in_or_app; now left.
  - apply IH.
    destruct (batch_step_cases float_repr api_key batches current ev)
      as [[-> _] | [[-> _] | [-> _]]]; cbn [fst]; auto.
    apply in_or_app; now left.
Qed.

(** An event that is too large on its own always opens a batch. *)
Lemma oversize_opens_batch (st : list (list event) * list event) (ev : event) :
  SAFE_PAYLOAD_BYTES < size [ev] -> snd (step st ev) = [ev].
Proof.
  intros Hbig. destruct st as [batches current].
  destruct (batch_step_cases float_repr api_key batches current ev)
    as [[_ [_ Hfit]] | [[-> _] | [-> _]]]; [|reflexivity..].
  pose proof (estimate_payload_size_app_r float_repr api_key current [ev]). lia.
Qed.

(** ... and nothing joins it afterwards. *)
Lemma oversize_stays_alone (ev : event) (events : list event) :
  SAFE_PAYLOAD_BYTES < size [ev] ->
  forall batches, In [ev] (close (fold_left step events (batches, [ev]))).
Proof.
  intros Hbig. destruct events as [|next events]; intros batches.
  - unfold close; cbn. apply in_or_app; right; now left.
  - cbn [fold_left].
    destruct (batch_step_cases float_repr api_key batches [ev] next)
      as [[_ [_ Hfit]] | [[_ Hnil] | [-> _]]].
    + pose proof (estimate_payload_size_app_l float_repr api_key [ev] [next]). lia.
    + discriminate Hnil.
    + apply closed_batch_emitted; cbn [fst]. apply in_or_app; right; now left.
Qed.

Lemma report_batches_In (batch : list event) (eu : bool)
    (batches : list (list event)) :
  In batch batches ->
  forall i, exists j,
    In {| report_script := generate_curl_script float_repr j api_key batch eu;
          report_n_events := len batch;
          report_payload_size := size batch |}
       (report_batches float_repr i batches api_key eu).
Proof.
  induction batches as [|b batches IH]; intros Hin i; [destruct Hin|].
  destruct Hin as [-> | Hin].
  - exists i. now left.
  - destruct (IH Hin (i + 1)) as [j Hj]. exists j. now right.
Qed.

(** C5, as amended. An event whose payload alone is estimated above the
    limit is emitted by [batch_events] alone in a batch that is an
    ordinary element of the list returned, with no flag and no failure;
    [main] generates a request script for it as for any other batch, and
    the only trace is the size printed on its report line, which exceeds
    the limit. *)
Theorem oversize_event_emitted_unflagged
    (events : list event) (ev : event) (eu : bool) :
  In ev events ->
  SAFE_PAYLOAD_BYTES < size [ev] ->
  In [ev] (batch_events float_repr events api_key)
  /\ exists i,
       In {| report_script := generate_curl_script float_repr i api_key [ev] eu;
             report_n_events := 1;
             report_payload_size := size [ev] |}
          (main_bundle float_repr events api_key eu).
Proof.
  intros Hin Hbig.
  assert (Hemit : In [ev] (batch_events float_repr events api_key)).
  { destruct (in_split _ _ Hin) as [before [after ->]].
    rewrite batch_events_unfold, fold_left_app. cbn [fold_left].
    pose proof (oversize_opens_batch (fold_left step before ([], [])) ev Hbig) as Hopen.
    destruct (step (fold_left step before ([], [])) ev) as [batches current].
    cbn [snd] in Hopen; subst current.
    now apply oversize_stays_alone. }
  split; [exact Hemit|].
  destruct events as [|e0 events]; [destruct Hin|].
  cbn [main_bundle].
  exact (report_batches_In [ev] eu _ Hemit 1).
Qed.

End PayloadSize.

Section ConcreteBatches.
Import Py Json Bundle Library.

(** C2, counterexample. For the empty batch and the key [X] the estimate
    is 30 bytes, the body sent is 27 bytes long. *)
Lemma estimate_payload_size_not_exact :
  estimate_payload_size float_repr_unused (lit "X") [] = 30
  /\ text_len (script_payload_json
                 (generate_curl_script float_repr_unused 1 (lit "X") [] false))
     = 27
  /\ estimate_payload_size float_repr_unused (lit "X") []
     <> text_len (script_payload_json
                    (generate_curl_script float_repr_unused 1 (lit "X") [] false)).
Proof.
  split; [reflexivity | split; [reflexivity | discriminate]].
Qed.

Lemma escape_chars_letters (n : nat) :
  text_len (escape_chars (repeat 97%N n)) = Z.of_nat n.
Proof.
  induction n as [|n IH]; [reflexivity|].
  cbn [repeat escape_chars].
  rewrite text_len_app, IH, Nat2Z.inj_succ.
  change (text_len (escape_char 97)) with 1. lia.
Qed.

(** The estimate for [oversize_event] alone, under an empty key. *)
Lemma oversize_event_size (float_repr : float -> string) :
  estimate_payload_size float_repr [] [oversize_event]
  = SAFE_PAYLOAD_BYTES + 47.
Proof.
  unfold estimate_payload_size, create_payload, dumps, oversize_event.
  generalize (Z.to_nat SAFE_PAYLOAD_BYTES) (Z2Nat.id SAFE_PAYLOAD_BYTES).
  intros n Hn. rewrite <- Hn by (unfold SAFE_PAYLOAD_BYTES; lia).
  cbn [encode map fst snd String.concat].
  unfold py_encode_basestring_ascii.
  repeat (rewrite text_len_app || rewrite text_len_String).
  rewrite escape_chars_letters.
  repeat match goal with
         | |- context [text_len ?t] =>
             let v := eval vm_compute in (text_len t) in
             change (text_len t) with v
         end.
  lia.
Qed.

Lemma batch_events_single (float_repr : float -> string) (api_key : str)
    (ev : event) :
  batch_events float_repr [ev] api_key = [[ev]].
Proof.
  rewrite batch_events_unfold. cbn [fold_left].
  destruct (batch_step_cases float_repr api_key [] [] ev)
    as [[-> _] | [[-> _] | [_ [Hne _]]]]; [reflexivity.. | now elim Hne].
Qed.

(** C5, counterexample. [oversize_event] alone is estimated at
    19922991 bytes, above the limit of 19922944; [batch_events] returns
    it as the one plain batch, and [main] reports it and generates its
    script as for any batch. *)
Lemma oversize_event_not_surfaced :
  SAFE_PAYLOAD_BYTES
    < estimate_payload_size float_repr_unused [] [oversize_event]
  /\ batch_events float_repr_unused [oversize_event] [] = [[oversize_event]]
  /\ main_bundle float_repr_unused [oversize_event] [] false
     = [ {| report_script :=
              generate_curl_script float_repr_unused 1 [] [oversize_event] false;
            report_n_events := 1;
            report_payload_size := 19922991 |} ].
Proof.
  split; [rewrite oversize_event_size; lia|].
  split; [apply batch_events_single|].
  cbn [main_bundle oversize_event].
  fold oversize_event. rewrite batch_events_single.
  cbn [report_batches]. rewrite oversize_event_size. reflexivity.
Qed.

(** The amended C5 at [oversize_event]. *)
Lemma oversize_event_emitted_unflagged_witness :
  In [oversize_event] (batch_events float_repr_unused [oversize_event] [])
  /\ exists i,
       In {| report_script :=
               generate_curl_script float_repr_unused i [] [oversize_event] false;
             report_n_events := 1;
             report_payload_size :=
               estimate_payload_size float_repr_unused [] [oversize_event] |}
          (main_bundle float_repr_unused [oversize_event] [] false).
Proof.
  apply (oversize_event_emitted_unflagged float_repr_unused []
           [oversize_event] oversize_event false).
  - left; reflexivity.
  - rewrite oversize_event_size. lia.
Defined.

End ConcreteBatches.

(* ================================================================= *)
(** ** Dictionaries *)

Section Dictionaries.
Import Py Json.

Lemma str_eqb_eq (a b : str) : str_eqb a b = true <-> a = b.
Proof.
  revert b; induction a as [|x a IH]; intros [|y b]; cbn [str_eqb];
    try (split; [discriminate | discriminate]); [tauto|].
  rewrite andb_true_iff, N.eqb_eq, IH.
  split; [intros [-> ->]; reflexivity | intros H; injection H; auto].
Qed.

Lemma str_eqb_refl (a : str) : str_eqb a a = true.
Proof. now apply str_eqb_eq. Qed.

Lemma str_eqb_neq (a b : str) : str_eqb a b = false <-> a <> b.
Proof.
  rewrite <- str_eqb_eq. destruct (str_eqb a b); split; congruence.
Qed.

(** Reading a dictionary after an assignment. *)
Lemma dict_get_set (d : dict) (k k' : str) (v : json) :
  dict_get (dict_set d k v) k'
  = if str_eqb k k' then Some v else dict_get d k'.
Proof.
  induction d as [|[k0 v0] d IH]; cbn [dict_set dict_get]; [reflexivity|].
  destruct (str_eqb k0 k) eqn:Hk0; cbn [dict_get].
  - apply str_eqb_eq in Hk0; subst k0.
    destruct (str_eqb k k'); reflexivity.
  - rewrite IH. destruct (str_eqb k0 k') eqn:Hk0'; [|reflexivity].
    apply str_eqb_eq in Hk0'; subst k0.
    apply str_eqb_neq in Hk0.
    destruct (str_eqb k k') eqn:Hk; [|reflexivity].
    apply str_eqb_eq in Hk. congruence.
Qed.

Lemma truthy_get_set_other (d : dict) (k k' : str) (v : json) :
  str_eqb k k' = false ->
  truthy_get (dict_set d k v) k' = truthy_get d k'.
Proof.
  intros Hne. unfold truthy_get. now rewrite dict_get_set, Hne.
Qed.

End Dictionaries.

(* ================================================================= *)
(** ** Properties of the field mapping *)

Section FieldMapping.
Import Py Json Convert.

Variable export_event : dict.

(** A target name that the mappings left do not assign keeps its
    value. *)
Lemma map_fields_other (mappings : list (str * str)) (name : str) :
  existsb (str_eqb name) (map snd mappings) = false ->
  forall upload_event,
    dict_get (fold_left (map_field export_event) mappings upload_event) name
    = dict_get upload_event name.
Proof.
  induction mappings as [|[src tgt] mappings IH]; intros Hnot upload_event;
    cbn [fold_left]; [reflexivity|].
  cbn [map snd existsb] in Hnot. apply orb_false_iff in Hnot as [Hne Hnot].
  rewrite (IH Hnot). unfold map_field.
  destruct (dict_get export_event src) as [value|]; [|reflexivity].
  destruct (is_None value); [reflexivity|].
  destruct (eq_empty_str value || eq_empty_dict value); [reflexivity|].
  rewrite dict_get_set.
  destruct (str_eqb tgt name) eqn:Heq; [|reflexivity].
  apply str_eqb_eq in Heq; subst tgt. now rewrite str_eqb_refl in Hne.
Qed.

(** When the target names are distinct, the target of a mapping holds
    what the loop keeps of its source, or what it held before. *)
Lemma map_fields_target (mappings : list (str * str)) (src tgt : str) :
  distinct (map snd mappings) = true ->
  In (src, tgt) mappings ->
  forall upload_event,
    dict_get (fold_left (map_field export_event) mappings upload_event) tgt
    = match copied export_event src with
      | Some value => Some value
      | None => dict_get upload_event tgt
      end.
Proof.
  induction mappings as [|[src0 tgt0] mappings IH]; intros Hd Hin upload_event;
    [destruct Hin|].
  cbn [map snd distinct] in Hd. apply andb_true_iff in Hd as [Hfresh Hd].
  apply negb_true_iff in Hfresh.
  cbn [fold_left]. destruct Hin as [Heq | Hin].
  - injection Heq as -> ->.
    rewrite (map_fields_other mappings tgt Hfresh).
    unfold map_field, copied.
    destruct (dict_get export_event src) as [value|]; [|reflexivity].
    destruct (is_None value); [reflexivity|]. cbn [orb].
    destruct (eq_empty_str value || eq_empty_dict value); [reflexivity|].
    now rewrite dict_get_set, str_eqb_refl.
  - rewrite (IH Hd Hin).
    destruct (copied export_event src) as [value|]; [reflexivity|].
    assert (Hne : str_eqb tgt0 tgt = false).
    { apply str_eqb_neq. intros ->.
      assert (Hex : existsb (str_eqb tgt) (map snd mappings) = true).
      { apply existsb_exists. exists tgt. split; [|apply str_eqb_refl].
        apply in_map_iff. now exists (src, tgt). }
      congruence. }
    unfold map_field.
    destruct (dict_get export_event src0) as [value|]; [|reflexivity].
    destruct (is_None value); [reflexivity|].
    destruct (eq_empty_str value || eq_empty_dict value); [reflexivity|].
    now rewrite dict_get_set, Hne.
Qed.

Lemma FIELD_MAPPING_distinct : distinct (map snd FIELD_MAPPING) = true.
Proof. reflexivity. Qed.

(** [time] is not the target of a mapping. *)
Lemma FIELD_MAPPING_not_time (src tgt : str) :
  In (src, tgt) FIELD_MAPPING -> str_eqb (lit "time") tgt = false.
Proof.
  intros Hin. apply str_eqb_neq. intros <-.
  assert (Hex : existsb (str_eqb (lit "time")) (map snd FIELD_MAPPING) = true).
  { apply existsb_exists. exists (lit "time"). split; [|apply str_eqb_refl].
    apply in_map_iff. now exists (src, lit "time"). }
  discriminate Hex.
Qed.

(** After the loop the target of every mapping holds what the loop keeps
    of its source. *)
Lemma map_fields_copied (src tgt : str) :
  In (src, tgt) FIELD_MAPPING ->
  dict_get (map_fields export_event) tgt = copied export_event src.
Proof.
  intros Hin. unfold map_fields.
  rewrite (map_fields_target FIELD_MAPPING src tgt FIELD_MAPPING_distinct Hin).
  now destruct (copied export_event src).
Qed.

End FieldMapping.

(* ================================================================= *)
(** ** Properties of [convert_event] and [parse_timestamp] *)

Section ConvertEvent.
Import Py Json Convert.

Variable strptime : str -> str -> option datetime.
Variable local_to_seconds : datetime -> option Z.
Variable int_of_str : str -> option Z.

Abbreviation parse_field' := (parse_field strptime local_to_seconds).
Abbreviation parse_timestamp' :=
  (parse_timestamp strptime local_to_seconds int_of_str).
Abbreviation convert_event' :=
  (convert_event strptime local_to_seconds int_of_str).
Abbreviation resolves' := (resolves strptime local_to_seconds).
Abbreviation skipped' := (skipped strptime local_to_seconds).

(** The record that [convert_event] validates: the mapped fields, and
    [time] when the timestamp is not zero. *)
Lemma convert_event_cases (export_event : dict) :
  match parse_timestamp' export_event with
  | Raise e => convert_event' export_event = Raise e
  | Ok t =>
      exists upload_event,
        (upload_event = map_fields export_event
         \/ exists z, t = Some z
                      /\ upload_event
                         = dict_set (map_fields export_event) (lit "time") (JInt z))
        /\ convert_event' export_event
           = if rejected upload_event then Ok None else Ok (Some upload_event)
  end.
Proof.
  unfold convert_event.
  destruct (parse_timestamp' export_event) as [t|e]; cbn [bind]; [|reflexivity].
  set (upload_event :=
         match t with
         | Some z => if truthy_timestamp t
                     then dict_set (map_fields export_event) (lit "time") (JInt z)
                     else map_fields export_event
         | None => map_fields export_event
         end).
  exists upload_event. split.
  - subst upload_event. destruct t as [z|]; [|now left].
    destruct (truthy_timestamp (Some z)); [right; now exists z | now left].
  - unfold rejected.
    destruct (truthy_get upload_event (lit "user_id")
              || truthy_get upload_event (lit "device_id")); cbn [negb orb];
      [|reflexivity].
    destruct (truthy_get upload_event (lit "event_type")); reflexivity.
Qed.

(** Validation only looks at the mapped fields: [time] is none of the
    three names it reads. *)
Lemma rejected_time (upload_event : dict) (z : Z) :
  rejected (dict_set upload_event (lit "time") (JInt z)) = rejected upload_event.
Proof.
  unfold rejected. now rewrite !truthy_get_set_other.
Qed.

(** Whenever the timestamp resolution does not raise, [convert_event]
    returns none exactly when the mapped record lacks a true [event_type]
    or lacks both a true [user_id] and a true [device_id]; and it raises
    exactly what the timestamp resolution raises. *)
Lemma convert_event_none_iff (export_event : dict) :
  (convert_event' export_event = Ok None
   <-> (exists t, parse_timestamp' export_event = Ok t)
       /\ rejected (map_fields export_event) = true)
  /\ (forall e, convert_event' export_event = Raise e
                <-> parse_timestamp' export_event = Raise e).
Proof.
  pose proof (convert_event_cases export_event) as Hc.
  destruct (parse_timestamp' export_event) as [t|e].
  - destruct Hc as [upload_event [Hup ->]].
    assert (Hrej : rejected upload_event = rejected (map_fields export_event)).
    { destruct Hup as [-> | [z [_ ->]]]; [reflexivity | apply rejected_time]. }
    rewrite Hrej. split.
    + destruct (rejected (map_fields export_event)); split.
      * intros _. split; [now exists t | reflexivity].
      * reflexivity.
      * discriminate.
      * intros [_ H]; discriminate H.
    + intros e. destruct (rejected (map_fields export_event));
        split; discriminate.
  - rewrite Hc. split.
    + split; [discriminate | intros [[t Ht] _]; discriminate Ht].
    + intros e'. split; intros H; injection H as ->; reflexivity.
Qed.

(** The three fields that the validation reads are mapped to
    themselves. *)
Lemma FIELD_MAPPING_validated :
  In (lit "event_type", lit "event_type") FIELD_MAPPING
  /\ In (lit "user_id", lit "user_id") FIELD_MAPPING
  /\ In (lit "device_id", lit "device_id") FIELD_MAPPING.
Proof.
  unfold FIELD_MAPPING.
  repeat split; repeat (try (left; reflexivity); right).
Qed.

(** A mapped field is true as a condition in the mapped record exactly
    when its source is in the raw event: what the copy leaves out is
    false as a condition. *)
Lemma truthy_get_map_fields (export_event : dict) (src tgt : str) :
  In (src, tgt) FIELD_MAPPING ->
  truthy_get (map_fields export_event) tgt = truthy_get export_event src.
Proof.
  intros Hin. unfold truthy_get.
  rewrite (map_fields_copied export_event src tgt Hin). unfold copied.
  destruct (dict_get export_event src)
    as [[ | b | z | f | [|c s] | items | [|m members] ]|]; reflexivity.
Qed.

(** A raw event with an [event_type] and an identifier that are true as
    conditions passes the validation. *)
Lemma map_fields_accepted (export_event : dict) :
  truthy_get export_event (lit "event_type") = true ->
  truthy_get export_event (lit "user_id") = true
  \/ truthy_get export_event (lit "device_id") = true ->
  rejected (map_fields export_event) = false.
Proof.
  intros Htype Hid. unfold rejected.
  destruct FIELD_MAPPING_validated as [Ht [Hu Hd]].
  rewrite (truthy_get_map_fields export_event _ _ Ht),
    (truthy_get_map_fields export_event _ _ Hu),
    (truthy_get_map_fields export_event _ _ Hd), Htype.
  destruct Hid as [-> | ->]; [reflexivity | now rewrite orb_true_r].
Qed.

(** C9. The field copy treats only [None], the empty string and the
    empty dictionary as absent: every other value of a mapped field is
    copied unchanged to the mapped record, and is in the record that
    [convert_event] returns. A record is returned, and holds the value,
    for every raw event that has an [event_type] and a [user_id] or a
    [device_id] that are true as conditions and whose timestamp
    resolution does not raise. In particular this holds of an empty
    array, of the integer 0 and of the float 0.0. *)
Theorem field_copy_keeps_empty_array_and_zero
    (export_event : dict) (src tgt : str) (value : json) :
  In (src, tgt) FIELD_MAPPING ->
  dict_get export_event src = Some value ->
  (value = JNull \/ value = JStr [] \/ value = JObj [] ->
   dict_get (map_fields export_event) tgt = None)
  /\ (value <> JNull -> value <> JStr [] -> value <> JObj [] ->
      dict_get (map_fields export_event) tgt = Some value
      /\ (forall upload_event,
            convert_event' export_event = Ok (Some upload_event) ->
            dict_get upload_event tgt = Some value)
      /\ (truthy_get export_event (lit "event_type") = true ->
          truthy_get export_event (lit "user_id") = true
          \/ truthy_get export_event (lit "device_id") = true ->
          (exists t, parse_timestamp' export_event = Ok t) ->
          exists upload_event,
            convert_event' export_event = Ok (Some upload_event)
            /\ dict_get upload_event tgt = Some value))
  /\ (value = JArr [] \/ value = JInt 0 \/ value = JFloat PrimFloat.zero ->
      dict_get (map_fields export_event) tgt = Some value
      /\ (forall upload_event,
            convert_event' export_event = Ok (Some upload_event) ->
            dict_get upload_event tgt = Some value)
      /\ (truthy_get export_event (lit "event_type") = true ->
          truthy_get export_event (lit "user_id") = true
          \/ truthy_get export_event (lit "device_id") = true ->
          (exists t, parse_timestamp' export_event = Ok t) ->
          exists upload_event,
            convert_event' export_event = Ok (Some upload_event)
            /\ dict_get upload_event tgt = Some value)).
Proof.
  intros Hin Hget.
  pose proof (map_fields_copied export_event src tgt Hin) as Hcopy.
  unfold copied in Hcopy. rewrite Hget in Hcopy.
  assert (Hreturned :
            dict_get (map_fields export_event) tgt = Some value ->
            forall upload_event,
              convert_event' export_event = Ok (Some upload_event) ->
              dict_get upload_event tgt = Some value).
  { intros Hkept upload_event Hconv.
    pose proof (convert_event_cases export_event) as Hc.
    destruct (parse_timestamp' export_event) as [t|e];
      [|rewrite Hc in Hconv; discriminate Hconv].
    destruct Hc as [upload_event' [Hup Hres]].
    rewrite Hres in Hconv.
    destruct (rejected upload_event'); [discriminate Hconv|].
    injection Hconv as <-.
    destruct Hup as [-> | [z [_ ->]]]; [exact Hkept|].
    now rewrite dict_get_set, (FIELD_MAPPING_not_time src tgt Hin). }
  assert (Hrecord :
            dict_get (map_fields export_event) tgt = Some value ->
            truthy_get export_event (lit "event_type") = true ->
            truthy_get export_event (lit "user_id") = true
            \/ truthy_get export_event (lit "device_id") = true ->
            (exists t, parse_timestamp' export_event = Ok t) ->
            exists upload_event,
              convert_event' export_event = Ok (Some upload_event)
              /\ dict_get upload_event tgt = Some value).
  { intros Hkept Htype Hid [t Ht].
    pose proof (convert_event_cases export_event) as Hc.
    rewrite Ht in Hc. destruct Hc as [upload_event [Hup Hres]].
    assert (Hrej : rejected upload_event = false).
    { destruct Hup as [-> | [z [_ ->]]]; [|rewrite rejected_time];
        now apply map_fields_accepted. }
    rewrite Hrej in Hres. exists upload_event.
    split; [exact Hres | now apply Hreturned]. }
  assert (Hother :
            value <> JNull -> value <> JStr [] -> value <> JObj [] ->
            dict_get (map_fields export_event) tgt = Some value).
  { intros Hnull Hstr Hobj. rewrite Hcopy.
    destruct value as [ | b | z | f | [|c s] | items | [|m members] ];
      try reflexivity; congruence. }
  split; [|split].
  - rewrite Hcopy. intros [-> | [-> | ->]]; reflexivity.
  - intros Hnull Hstr Hobj.
    assert (Hkept : dict_get (map_fields export_event) tgt = Some value)
      by now apply Hother.
    split; [exact Hkept | split; [now apply Hreturned | now apply Hrecord]].
  - intros Hvalue.
    assert (Hkept : dict_get (map_fields export_event) tgt = Some value)
      by (apply Hother; destruct Hvalue as [-> | [-> | ->]]; discriminate).
    split; [exact Hkept | split; [now apply Hreturned | now apply Hrecord]].
Qed.

(** *** Timestamp resolution *)

Lemma timestamp_loop_skipped (event : dict) (fields : list str) :
  Forall (skipped' event) fields ->
  timestamp_loop strptime local_to_seconds int_of_str fields event
  = numeric_fallback int_of_str event.
Proof.
  induction 1 as [|field fields Hskip _ IH]; cbn [timestamp_loop]; [reflexivity|].
  unfold skipped in Hskip.
  destruct (dict_get event field) as [v|]; [|exact IH].
  destruct Hskip as [-> | [e [-> ->]]]; [exact IH|].
  destruct (truthy v); exact IH.
Qed.

Lemma timestamp_loop_first (event : dict) (before after : list str)
    (field : str) (ms : Z) :
  Forall (skipped' event) before ->
  resolves' event field ms ->
  timestamp_loop strptime local_to_seconds int_of_str
    (before ++ field :: after) event
  = Ok (Some ms).
Proof.
  intros Hbefore [v [Hget [Htrue Hparse]]].
  induction Hbefore as [|f before Hskip _ IH]; cbn [app timestamp_loop].
  - now rewrite Hget, Htrue, Hparse.
  - unfold skipped in Hskip.
    destruct (dict_get event f) as [w|]; [|exact IH].
    destruct Hskip as [-> | [e [-> ->]]]; [exact IH|].
    destruct (truthy w); exact IH.
Qed.

(** A finite float other than zero is true as a condition. *)
Lemma finite_float_truthy (f : float) (sign : bool) (m : positive) (e : Z) :
  Prim2SF f = S754_finite sign m e ->
  PrimFloat.eqb f PrimFloat.zero = false.
Proof.
  intros Hf. rewrite FloatAxioms.eqb_spec, Hf.
  now destruct sign.
Qed.

(** C7, as amended. The fields [event_time], [client_event_time] and
    [server_received_time] are tried in that order; a field counts when it
    is present, true as a condition and its text parses (with the
    fractional format when it holds a dot, with the plain one otherwise)
    into a date whose local-time reading converts; the first such field
    gives the result, in milliseconds. When the three are passed over, the
    result is that of the fallback: a [time] that is an integer other than
    0 is returned as it is; a [time] that is a finite float other than
    zero, of value [m * 2 ^ e] or its opposite, is returned truncated
    towards zero; and a [time] that is absent, 0 or 0.0 (of either sign)
    gives no timestamp. *)
Theorem parse_timestamp_resolution (event : dict) :
  TIMESTAMP_FIELDS
  = [lit "event_time"; lit "client_event_time"; lit "server_received_time"]
  /\ (forall before field after ms,
        TIMESTAMP_FIELDS = (before ++ field :: after)%list ->
        Forall (skipped' event) before ->
        resolves' event field ms ->
        parse_timestamp' event = Ok (Some ms))
  /\ (forall s,
        parse_field' (JStr s)
        = (dt <- match strptime s (if existsb (N.eqb 46) s
                                   then FORMAT_FRACTION else FORMAT_SECONDS) with
                 | Some dt => Ok dt
                 | None => Raise ValueError
                 end ;;
           t <- timestamp local_to_seconds dt ;;
           int_of_float (PrimFloat.mul t (float_of_Z 1000))))
  /\ (Forall (skipped' event) TIMESTAMP_FIELDS ->
      (forall z, dict_get event (lit "time") = Some (JInt z) -> z <> 0 ->
                 parse_timestamp' event = Ok (Some z))
      /\ (forall f sign m e,
            dict_get event (lit "time") = Some (JFloat f) ->
            Prim2SF f = S754_finite sign m e ->
            parse_timestamp' event
            = Ok (Some (if sign then - Z.shiftl (Zpos m) e
                        else Z.shiftl (Zpos m) e)))
      /\ (dict_get event (lit "time") = Some (JInt 0) ->
          parse_timestamp' event = Ok None)
      /\ (forall f, dict_get event (lit "time") = Some (JFloat f) ->
                    PrimFloat.eqb f PrimFloat.zero = true ->
                    parse_timestamp' event = Ok None)
      /\ (dict_get event (lit "time") = None ->
          parse_timestamp' event = Ok None)).
Proof.
  split; [reflexivity|].
  split.
  { intros before field after ms Hfields Hbefore Hres.
    unfold parse_timestamp. rewrite Hfields.
    now apply timestamp_loop_first. }
  split.
  { intros s. unfold parse_field, contains_dot, datetime_strptime. cbn [bind].
    destruct (existsb (N.eqb 46) s); reflexivity. }
  intros Hskipped.
  assert (Hfall : parse_timestamp' event = numeric_fallback int_of_str event).
  { unfold parse_timestamp. now apply timestamp_loop_skipped. }
  rewrite Hfall. unfold numeric_fallback.
  repeat split.
  - intros z -> Hz. cbn [truthy py_int bind].
    apply Z.eqb_neq in Hz. now rewrite Hz.
  - intros f sign m e -> Hf. cbn [truthy py_int].
    rewrite (finite_float_truthy f sign m e Hf). cbn [negb].
    unfold int_of_float. rewrite Hf. reflexivity.
  - intros ->. reflexivity.
  - intros f -> Hf. cbn [truthy]. now rewrite Hf.
  - intros ->. reflexivity.
Qed.

End ConvertEvent.

(* ================================================================= *)
(** ** Concrete runs of the conversion *)

Section ConcreteEvents.
Import Py Json Convert.

(** C7, counterexample. The record holds a numeric [time], 0, and none
    of the three text fields; the resolution does not fall back to it and
    returns no timestamp. *)
Lemma parse_timestamp_zero_time_dropped :
  dict_get Library.epoch_event (lit "time") = Some (JInt 0)
  /\ Forall (skipped Library.strptime (Library.local_to_seconds 0)
               Library.epoch_event) TIMESTAMP_FIELDS
  /\ parse_timestamp Library.strptime (Library.local_to_seconds 0)
       Library.int_of_str Library.epoch_event
     = Ok None
  /\ parse_timestamp Library.strptime (Library.local_to_seconds 0)
       Library.int_of_str Library.epoch_event
     <> Ok (Some 0).
Proof.
  split; [reflexivity|].
  split; [repeat constructor|].
  split; [reflexivity | discriminate].
Qed.

(** C8, at the failing input. On a machine whose local time is UTC the
    record of the example is converted to the record the specification
    gives; on a machine one hour east of UTC the same record gets a
    [time] that is 3600000 ms smaller, because [dt.timestamp()] reads the
    naive date in the local time zone. *)
Theorem convert_event_example_local_time (int_of_str : str -> option Z) :
  convert_event Library.strptime (Library.local_to_seconds 0) int_of_str
    Library.login_event
  = Ok (Some [ (lit "user_id", JStr (lit "u1"));
               (lit "event_type", JStr (lit "login"));
               (lit "time", JInt 1705314645123) ])
  /\ convert_event Library.strptime (Library.local_to_seconds 3600) int_of_str
       Library.login_event
     = Ok (Some [ (lit "user_id", JStr (lit "u1"));
                  (lit "event_type", JStr (lit "login"));
                  (lit "time", JInt 1705311045123) ]).
Proof. split; vm_compute; reflexivity. Qed.

(** C6, at the failing inputs. A record whose only field is a [time]
    that [int] cannot convert holds no [event_type] and no identifier,
    yet [convert_event] does not return none for it: the exception raised
    by [int] in the fallback of [parse_timestamp], which stands outside
    the [try] block, leaves [convert_event]. An array raises [TypeError]
    whatever the library functions do; a text without digits raises
    [ValueError]. *)
Theorem convert_event_raises_on_bad_time :
  (forall strptime local_to_seconds int_of_str,
      rejected (map_fields [(lit "time", JArr [JInt 1])]) = true
      /\ convert_event strptime local_to_seconds int_of_str
           [(lit "time", JArr [JInt 1])]
         = Raise TypeError)
  /\ (forall strptime local_to_seconds,
        rejected (map_fields [(lit "time", JStr (lit "abc"))]) = true
        /\ convert_event strptime local_to_seconds Library.int_of_str
             [(lit "time", JStr (lit "abc"))]
           = Raise ValueError).
Proof. split; intros; split; reflexivity. Qed.

(** The fallback on a float: the fraction is dropped, towards zero for
    a negative number as well; 0.0 and -0.0 give no timestamp. *)
Example parse_timestamp_float_time :
  parse_timestamp Library.strptime (Library.local_to_seconds 0)
    Library.int_of_str [(lit "time", JFloat 1705314645123.75%float)]
  = Ok (Some 1705314645123)
  /\ parse_timestamp Library.strptime (Library.local_to_seconds 0)
       Library.int_of_str [(lit "time", JFloat (-2.5)%float)]
     = Ok (Some (-2))
  /\ parse_timestamp Library.strptime (Library.local_to_seconds 0)
       Library.int_of_str [(lit "time", JFloat 0%float)]
     = Ok None
  /\ parse_timestamp Library.strptime (Library.local_to_seconds 0)
       Library.int_of_str [(lit "time", JFloat (-0)%float)]
     = Ok None.
Proof. repeat split; vm_compute; reflexivity. Qed.

(** A record with neither [user_id] nor [device_id] is dropped. *)
Example convert_event_without_identifier :
  convert_event Library.strptime (Library.local_to_seconds 0)
    Library.int_of_str
    [ (lit "event_type", JStr (lit "login"));
      (lit "event_time", JStr (lit "2024-01-15 10:30:45")) ]
  = Ok None.
Proof. reflexivity. Qed.

(** The amended C7 at a record whose first field does not parse: the
    second field gives the result, and the numeric [time] is not
    consulted. *)
Lemma parse_timestamp_resolution_witness :
  parse_timestamp Library.strptime (Library.local_to_seconds 0)
    Library.int_of_str Library.slash_event
  = Ok (Some 1705314645000).
Proof.
  apply (proj1 (proj2 (parse_timestamp_resolution
                         Library.strptime (Library.local_to_seconds 0)
                         Library.int_of_str Library.slash_event))
           [lit "event_time"] (lit "client_event_time")
           [lit "server_received_time"]).
  - reflexivity.
  - constructor; [|constructor].
    right. exists ValueError. split; reflexivity.
  - exists (JStr (lit "2024-01-15 10:30:45")).
    split; [reflexivity | split; reflexivity].
Defined.

Example convert_event_purchase :
  convert_event Library.strptime (Library.local_to_seconds 0)
    Library.int_of_str Library.purchase_event
  = Ok (Some Library.purchase_event).
Proof. reflexivity. Qed.

(** C9 at [purchase_event]: the empty [groups] array is copied, and a
    record is returned that holds it. *)
Lemma field_copy_keeps_empty_array_and_zero_witness :
  dict_get (map_fields Library.purchase_event) (lit "groups") = Some (JArr [])
  /\ exists upload_event,
       convert_event Library.strptime (Library.local_to_seconds 0)
         Library.int_of_str Library.purchase_event
       = Ok (Some upload_event)
       /\ dict_get upload_event (lit "groups") = Some (JArr []).
Proof.
  assert (Hin : In (lit "groups", lit "groups") FIELD_MAPPING).
  { unfold FIELD_MAPPING. cbn [map fst snd].
    repeat (try (left; reflexivity); right). }
  destruct (proj2 (proj2 (field_copy_keeps_empty_array_and_zero
                            Library.strptime (Library.local_to_seconds 0)
                            Library.int_of_str Library.purchase_event
                            (lit "groups") (lit "groups") (JArr [])
                            Hin eq_refl))
              (or_introl eq_refl))
    as [Hkept [_ Hrecord]].
  split; [exact Hkept|].
  apply Hrecord.
  - reflexivity.
  - left. reflexivity.
  - exists None. reflexivity.
Defined.

(** The quantity 0 of [purchase_event] is in the record returned as
    well. *)
Example convert_event_keeps_zero :
  exists upload_event,
    convert_event Library.strptime (Library.local_to_seconds 0)
      Library.int_of_str Library.purchase_event
    = Ok (Some upload_event)
    /\ dict_get upload_event (lit "quantity") = Some (JInt 0)
    /\ dict_get upload_event (lit "groups") = Some (JArr []).
Proof. eexists. repeat split. Qed.

(** Three small events fit one batch. *)
Example batch_events_three :
  Bundle.batch_events Library.float_repr_unused
    [JObj Library.login_event; JObj Library.purchase_event; JObj Library.epoch_event]
    (lit "KEY")
  = [[JObj Library.login_event; JObj Library.purchase_event;
      JObj Library.epoch_event]].
Proof. reflexivity. Qed.

End ConcreteEvents.

(* ================================================================= *)
(** ** Further properties of [batch_events] and [estimate_payload_size] *)

Section GreedyBatches.
Import Py Json Bundle Batches.

Variable float_repr : float -> string.
Variable api_key : str.

Abbreviation step := (batch_step float_repr api_key).
Abbreviation size := (estimate_payload_size float_repr api_key).
Abbreviation greedy' := (greedy float_repr api_key).
Abbreviation no_room' := (no_room float_repr api_key).

Lemma greedy_grow_last (batches : list (list event)) (current : list event)
    (ev : event) :
  current <> [] ->
  greedy' (batches ++ [current]) ->
  greedy' (batches ++ [current ++ [ev]]).
Proof.
  intros Hne. induction batches as [|b batches IH]; [trivial|].
  destruct batches as [|b' batches].
  - cbn. destruct current as [|e current]; [contradiction|].
    cbn. tauto.
  - intros [Hb Hrest]. split; [exact Hb | exact (IH Hrest)].
Qed.

Lemma greedy_close_last (batches : list (list event)) (current : list event)
    (ev : event) :
  no_room' current ev ->
  greedy' (batches ++ [current]) ->
  greedy' ((batches ++ [current]) ++ [[ev]]).
Proof.
  intros Hroom. induction batches as [|b batches IH].
  - cbn. tauto.
  - destruct batches as [|b' batches].
    + intros [Hb _]. cbn in Hb |- *. tauto.
    + intros [Hb Hrest]. split; [exact Hb | exact (IH Hrest)].
Qed.

Lemma greedy_step (st : list (list event) * list event) (ev : event) :
  (snd st = [] -> fst st = []) /\ greedy' (close st) ->
  (snd (step st ev) = [] -> fst (step st ev) = [])
  /\ greedy' (close (step st ev)).
Proof.
  destruct st as [batches current]; cbn [fst snd]; intros [Hempty Hg].
  destruct (batch_step_cases float_repr api_key batches current ev)
    as [[-> _] | [[-> ->] | [-> [Hne Hroom]]]]; cbn [fst snd].
  - split; [now destruct current|].
    destruct current as [|e current].
    + rewrite (Hempty eq_refl). exact I.
    + unfold close in *; cbn [fst snd] in *.
      change ((e :: current) ++ [ev])%list with (e :: (current ++ [ev]))%list.
      change (e :: (current ++ [ev]))%list with ((e :: current) ++ [ev])%list.
      destruct ((e :: current) ++ [ev])%list eqn:Happ; [discriminate Happ|].
      rewrite <- Happ. now apply greedy_grow_last.
  - split; [discriminate|]. rewrite (Hempty eq_refl). exact I.
  - split; [discriminate|].
    unfold close in *; cbn [fst snd] in *.
    destruct current as [|e current]; [contradiction|].
    now apply greedy_close_last.
Qed.

Lemma greedy_fold (events : list event) :
  forall st,
    (snd st = [] -> fst st = []) /\ greedy' (close st) ->
    greedy' (close (fold_left step events st)).
Proof.
  induction events as [|ev events IH]; intros st Hst; cbn [fold_left].
  - apply Hst.
  - apply IH, greedy_step, Hst.
Qed.

Lemma greedy_split (batches : list (list event)) :
  greedy' batches ->
  forall before b1 b2 after,
    batches = (before ++ b1 :: b2 :: after)%list ->
    exists ev rest, b2 = ev :: rest /\ no_room' b1 ev.
Proof.
  intros Hg before. revert batches Hg.
  induction before as [|b before IH]; intros batches Hg b1 b2 after ->.
  - cbn in Hg. destruct Hg as [Hb _].
    destruct b2 as [|ev rest]; [contradiction|]. now exists ev, rest.
  - assert (Htail : greedy' (before ++ b1 :: b2 :: after)%list).
    { cbn [app] in Hg.
      destruct (before ++ b1 :: b2 :: after)%list eqn:Hl;
        [now destruct before|].
      apply Hg. }
    exact (IH _ Htail b1 b2 after eq_refl).
Qed.

(** The partition is greedy: whenever a batch is followed by another one
    in the result, the first event of the follower did not fit the batch,
    that is, appending it would have exceeded the count limit or the
    size limit. *)
Theorem batch_events_greedy (events : list event)
    (before : list (list event)) (b1 b2 : list event)
    (after : list (list event)) :
  batch_events float_repr events api_key = (before ++ b1 :: b2 :: after)%list ->
  exists ev rest,
    b2 = ev :: rest
    /\ (MAX_EVENTS_PER_BATCH < len (b1 ++ [ev])%list
        \/ SAFE_PAYLOAD_BYTES < size (b1 ++ [ev])%list).
Proof.
  intros Hsplit.
  apply (greedy_split (batch_events float_repr events api_key))
    with (before := before) (after := after); [|exact Hsplit].
  rewrite batch_events_unfold. apply greedy_fold.
  split; [reflexivity | exact I].
Qed.

Lemma fold_fits (rest : list event) :
  forall current,
    len (current ++ rest)%list <= MAX_EVENTS_PER_BATCH ->
    size (current ++ rest)%list <= SAFE_PAYLOAD_BYTES ->
    fold_left step rest ([], current) = ([], (current ++ rest)%list).
Proof.
  induction rest as [|ev rest IH]; intros current Hn Hs; cbn [fold_left].
  - now rewrite app_nil_r.
  - assert (Hn' : len (current ++ [ev])%list <= MAX_EVENTS_PER_BATCH).
    { unfold len in *. rewrite !length_app in *. cbn [List.length] in *. lia. }
    assert (Hs' : size (current ++ [ev])%list <= SAFE_PAYLOAD_BYTES).
    { pose proof (estimate_payload_size_app_l float_repr api_key
                    (current ++ [ev])%list rest) as Hmono.
      rewrite <- app_assoc in Hmono. cbn [app] in Hmono. lia. }
    destruct (batch_step_cases float_repr api_key [] current ev)
      as [[-> _] | [[-> ->] | [_ [_ [Hbad | Hbad]]]]]; [| | lia | lia].
    + rewrite IH; rewrite <- app_assoc; [reflexivity | exact Hn | exact Hs].
    + apply (IH [ev]); [exact Hn | exact Hs].
Qed.

(** A list of events that respects both limits as a whole is sent as one
    batch. *)
Theorem batch_events_single_batch (events : list event) :
  events <> [] ->
  len events <= MAX_EVENTS_PER_BATCH ->
  size events <= SAFE_PAYLOAD_BYTES ->
  batch_events float_repr events api_key = [events].
Proof.
  intros Hne Hn Hs.
  rewrite batch_events_unfold, (fold_fits events [] Hn Hs).
  unfold close; cbn [fst snd app]. now destruct events.
Qed.

(** Appending an event to a batch adds to the estimate the length of the
    text of the event, and two bytes for the separator when the batch
    was not empty: the estimate can be kept incrementally, and never
    decreases when a batch grows. *)
Theorem estimate_payload_size_append (events : list event) (ev : event) :
  size (events ++ [ev])%list
  = size events + text_len (dumps float_repr ev)
    + match events with [] => 0 | _ => 2 end
  /\ size events < size (events ++ [ev])%list + 1.
Proof.
  assert (Heq : size (events ++ [ev])%list
                = size events + text_len (dumps float_repr ev)
                  + match events with [] => 0 | _ => 2 end).
  { rewrite (estimate_payload_size_events float_repr api_key events),
      (estimate_payload_size_events float_repr api_key (events ++ [ev])%list).
    rewrite !text_len_concat, map_app, total_app, length_app, !length_map.
    cbn [map List.length fold_right]. unfold dumps, event.
    change (text_len ", ") with 2.
    destruct events as [|e events]; cbn [List.length Nat.pred Nat.add]; [lia|].
    replace (List.length events + 1)%nat with (S (List.length events)) by lia.
    cbn [Nat.pred].
    destruct events as [|e' events]; cbn [List.length Nat.pred]; [lia|].
    rewrite !Nat2Z.inj_succ. lia. }
  split; [exact Heq|].
  rewrite Heq. pose proof (text_len_nonneg (dumps float_repr ev)).
  destruct events; lia.
Qed.

(** The number of requests: at least one for 2000 events, at most one
    per event. *)
Theorem batch_events_count_bounds (events : list event) :
  len events <= MAX_EVENTS_PER_BATCH * len (batch_events float_repr events api_key)
  /\ len (batch_events float_repr events api_key) <= len events.
Proof.
  assert (Hcat : List.concat (batch_events float_repr events api_key) = events).
  { rewrite batch_events_unfold, concat_close, held_fold. reflexivity. }
  assert (Hmax : Forall (fun batch => len batch <= MAX_EVENTS_PER_BATCH)
                   (batch_events float_repr events api_key)).
  { apply batch_events_Forall.
    - intros ev. unfold len, MAX_EVENTS_PER_BATCH. cbn. lia.
    - intros current ev _ Hn _. exact Hn. }
  assert (Hmin : Forall (fun batch => 1 <= len batch)
                   (batch_events float_repr events api_key)).
  { apply batch_events_Forall.
    - intros ev. unfold len. cbn. lia.
    - intros current ev Hc _ _. unfold len in *. rewrite length_app. lia. }
  revert Hcat Hmax Hmin.
  generalize (batch_events float_repr events api_key) as batches.
  intros batches <-. unfold MAX_EVENTS_PER_BATCH.
  induction batches as [|b batches IH]; intros Hmax Hmin.
  - unfold len; cbn. lia.
  - inversion Hmax as [|? ? Hb Hmax']; subst.
    inversion Hmin as [|? ? Hb1 Hmin']; subst.
    destruct (IH Hmax' Hmin') as [IH1 IH2].
    unfold len in *. cbn [List.concat List.length].
    rewrite length_app, Nat2Z.inj_add, Nat2Z.inj_succ. lia.
Qed.

End GreedyBatches.

Section BundleReports.
Import Py Json Bundle.

Variable float_repr : float -> string.
Variable api_key : str.
Variable eu : bool.

Abbreviation size := (estimate_payload_size float_repr api_key).
Abbreviation script_of i batch :=
  (generate_curl_script float_repr i api_key batch eu).

(** The body written into a script is at least three bytes shorter than
    the estimate printed beside it. *)
Lemma body_shorter_than_estimate (i : Z) (batch : list event) :
  script_payload_size (script_of i batch) + 3 <= size batch.
Proof.
  cbn [generate_curl_script script_payload_size].
  unfold estimate_payload_size. rewrite dumps_length.
  unfold create_payload.
  cbn [n_separators List.length Nat.pred map fold_right snd].
  pose proof (n_separators_nonneg (JArr batch)) as Hnn.
  cbn [n_separators] in Hnn. lia.
Qed.

Lemma report_batches_numbers (batches : list (list event)) :
  forall start : nat,
    map (fun r => script_batch_num (report_script r))
      (report_batches float_repr (Z.of_nat start) batches api_key eu)
    = map Z.of_nat (seq start (List.length batches)).
Proof.
  induction batches as [|b batches IH]; intros start; [reflexivity|].
  cbn [report_batches map List.length seq report_script
       generate_curl_script script_batch_num].
  f_equal. rewrite <- IH. do 2 f_equal. lia.
Qed.

Lemma report_batches_events (batches : list (list event)) :
  forall i,
    fold_right Z.add 0
      (map report_n_events (report_batches float_repr i batches api_key eu))
    = len (List.concat batches).
Proof.
  induction batches as [|b batches IH]; intros i; [reflexivity|].
  cbn [report_batches map fold_right report_n_events List.concat].
  rewrite IH. unfold len. rewrite length_app. lia.
Qed.

Lemma report_batches_each (batches : list (list event)) :
  Forall (fun batch => 1 <= len batch <= MAX_EVENTS_PER_BATCH) batches ->
  forall i,
    Forall (fun r =>
              report_n_events r = script_n_events (report_script r)
              /\ 1 <= report_n_events r <= MAX_EVENTS_PER_BATCH
              /\ script_payload_size (report_script r) + 3
                 <= report_payload_size r)
      (report_batches float_repr i batches api_key eu).
Proof.
  induction 1 as [|b batches Hb _ IH]; intros i; cbn [report_batches];
    constructor; [|apply IH].
  cbn [report_n_events report_script report_payload_size].
  split; [reflexivity | split; [exact Hb | apply body_shorter_than_estimate]].
Qed.

(** Report [i] is that of batch [i]: the body of its script is the
    payload of that batch, its count and its size are those of that
    batch. *)
Lemma report_batches_in_order (batches : list (list event)) :
  forall i,
    map (fun r => (script_payload_json (report_script r),
                   report_n_events r, report_payload_size r))
      (report_batches float_repr i batches api_key eu)
    = map (fun batch =>
             (dumps_compact float_repr (create_payload api_key batch),
              len batch, size batch))
        batches.
Proof.
  induction batches as [|b batches IH]; intros i; [reflexivity|].
  cbn [report_batches map report_script report_n_events report_payload_size
       generate_curl_script script_payload_json].
  now rewrite IH.
Qed.

(** What [main] reports: one script for each batch, in the order of the
    batches: script [i] (numbered from 1) carries as its body the compact
    payload of batch [i], and its line shows the number of events and the
    estimate of that batch. The event counts printed add up to the number
    of events read, every script holds between 1 and 2000 events, and the
    size printed for a script exceeds the length of the body written into
    it by at least three bytes. *)
Theorem main_bundle_reports (all_events : list event) :
  map (fun r => script_batch_num (report_script r))
    (main_bundle float_repr all_events api_key eu)
  = map Z.of_nat
      (seq 1 (List.length (batch_events float_repr all_events api_key)))
  /\ map (fun r => (script_payload_json (report_script r),
                    report_n_events r, report_payload_size r))
       (main_bundle float_repr all_events api_key eu)
     = map (fun batch =>
              (dumps_compact float_repr (create_payload api_key batch),
               len batch, size batch))
         (batch_events float_repr all_events api_key)
  /\ fold_right Z.add 0
       (map report_n_events (main_bundle float_repr all_events api_key eu))
     = len all_events
  /\ Forall (fun r =>
               report_n_events r = script_n_events (report_script r)
               /\ 1 <= report_n_events r <= MAX_EVENTS_PER_BATCH
               /\ script_payload_size (report_script r) + 3
                  <= report_payload_size r)
       (main_bundle float_repr all_events api_key eu).
Proof.
  assert (Hmain : main_bundle float_repr all_events api_key eu
                  = report_batches float_repr 1
                      (batch_events float_repr all_events api_key) api_key eu).
  { destruct all_events; reflexivity. }
  rewrite Hmain. split; [|split; [|split]].
  - exact (report_batches_numbers _ 1%nat).
  - apply report_batches_in_order.
  - rewrite report_batches_events, batch_events_unfold, concat_close, held_fold.
    reflexivity.
  - apply report_batches_each.
    apply batch_events_Forall.
    + intros ev. unfold len, MAX_EVENTS_PER_BATCH. cbn. lia.
    + intros current ev Hc Hn _. split; [|exact Hn].
      unfold len in *. rewrite length_app. lia.
Qed.

End BundleReports.

Section ConcreteBatches2.
Import Py Json Bundle Library.

(** An oversize event followed by a small one: two batches. *)
Lemma batch_events_oversize_then_null (float_repr : float -> string) :
  batch_events float_repr [oversize_event; JNull] []
  = [[oversize_event]; [JNull]].
Proof.
  rewrite batch_events_unfold. cbn [fold_left].
  assert (Hfirst : batch_step float_repr [] ([], []) oversize_event
                   = ([], [oversize_event])).
  { destruct (batch_step_cases float_repr [] [] [] oversize_event)
      as [[-> _] | [[-> _] | [_ [Hne _]]]]; [reflexivity.. | now elim Hne]. }
  rewrite Hfirst.
  destruct (batch_step_cases float_repr [] [] [oversize_event] JNull)
    as [[_ [_ Hfit]] | [[_ Hnil] | [-> _]]].
  - pose proof (estimate_payload_size_app_l float_repr []
                  [oversize_event] [JNull]) as Hmono.
    rewrite oversize_event_size in Hmono. cbn [app] in Hfit, Hmono.
    unfold event in *. lia.
  - discriminate Hnil.
  - reflexivity.
Qed.

(** [batch_events_greedy] at an oversize event followed by a small
    one. *)
Lemma batch_events_greedy_witness :
  exists ev rest,
    [JNull] = ev :: rest
    /\ (MAX_EVENTS_PER_BATCH < len ([oversize_event] ++ [ev])%list
        \/ SAFE_PAYLOAD_BYTES
           < estimate_payload_size float_repr_unused []
               ([oversize_event] ++ [ev])%list).
Proof.
  apply (batch_events_greedy float_repr_unused [] [oversize_event; JNull]
           [] [oversize_event] [JNull] []).
  apply batch_events_oversize_then_null.
Defined.

(** [batch_events_single_batch] at three small events. *)
Lemma batch_events_single_batch_witness :
  batch_events float_repr_unused
    [JObj login_event; JObj purchase_event; JObj epoch_event] (lit "KEY")
  = [[JObj login_event; JObj purchase_event; JObj epoch_event]].
Proof.
  apply (batch_events_single_batch float_repr_unused (lit "KEY")).
  - discriminate.
  - apply Z.leb_le. reflexivity.
  - apply Z.leb_le. reflexivity.
Defined.

End ConcreteBatches2.

(* ================================================================= *)
(** ** Further properties of [convert_event] *)

Section DictionaryStructure.
Import Py Json.

Lemma dict_get_None_iff (d : dict) (k : str) :
  dict_get d k = None <-> ~ In k (map fst d).
Proof.
  induction d as [|[k0 v0] d IH]; cbn [dict_get map fst In]; [tauto|].
  destruct (str_eqb k0 k) eqn:Hk.
  - apply str_eqb_eq in Hk. split; [discriminate | intros H; elim H; now left].
  - apply str_eqb_neq in Hk. rewrite IH. tauto.
Qed.

Lemma dict_get_In (d : dict) (k : str) (v : json) :
  dict_get d k = Some v -> In (k, v) d.
Proof.
  induction d as [|[k0 v0] d IH]; cbn [dict_get In]; [discriminate|].
  destruct (str_eqb k0 k) eqn:Hk.
  - apply str_eqb_eq in Hk. intros [= ->]. left; now subst.
  - intros H; right; now apply IH.
Qed.

Lemma dict_get_app (d1 d2 : dict) (k : str) :
  dict_get (d1 ++ d2) k
  = match dict_get d1 k with
    | Some v => Some v
    | None => dict_get d2 k
    end.
Proof.
  induction d1 as [|[k0 v0] d1 IH]; cbn [app dict_get]; [reflexivity|].
  destruct (str_eqb k0 k); [reflexivity | exact IH].
Qed.

(** Assigning a key that the dictionary does not hold appends it. *)
Lemma dict_set_fresh (d : dict) (k : str) (v : json) :
  dict_get d k = None -> dict_set d k v = (d ++ [(k, v)])%list.
Proof.
  induction d as [|[k0 v0] d IH]; cbn [dict_get dict_set app]; [reflexivity|].
  destruct (str_eqb k0 k); [discriminate|].
  intros H. now rewrite (IH H).
Qed.

End DictionaryStructure.

Section ConvertedRecords.
Import Py Json Convert Records.

Lemma copied_not_absent (export_event : dict) (src : str) (value : json) :
  copied export_event src = Some value ->
  dict_get export_event src = Some value
  /\ is_None value || eq_empty_str value || eq_empty_dict value = false.
Proof.
  unfold copied. destruct (dict_get export_event src) as [v|]; [|discriminate].
  destruct (is_None v || eq_empty_str v || eq_empty_dict v) eqn:Habs;
    [discriminate|].
  intros [= ->]. now split.
Qed.

Lemma absent_false (value : json) :
  is_None value || eq_empty_str value || eq_empty_dict value = false ->
  value <> JNull /\ value <> JStr [] /\ value <> JObj [].
Proof.
  destruct value as [ | b | z | f | [|c s] | items | [|m members] ];
    cbn; intros H; try discriminate H; repeat split; discriminate.
Qed.

Lemma map_field_kept (export_event upload_event : dict) (mapping : str * str) :
  dict_get upload_event (snd mapping) = None ->
  map_field export_event upload_event mapping
  = (upload_event ++ kept export_event mapping)%list.
Proof.
  destruct mapping as [src tgt]; cbn [snd]; intros Hfresh.
  unfold map_field, kept, copied; cbn [fst snd].
  destruct (dict_get export_event src) as [value|]; [|now rewrite app_nil_r].
  destruct (is_None value); cbn [orb]; [now rewrite app_nil_r|].
  destruct (eq_empty_str value || eq_empty_dict value);
    [now rewrite app_nil_r|].
  now apply dict_set_fresh.
Qed.

Lemma kept_keys (export_event : dict) (mapping : str * str) (k : str) :
  In k (map fst (kept export_event mapping)) -> k = snd mapping.
Proof.
  unfold kept. destruct (copied export_event (fst mapping)); cbn; [|tauto].
  intros [<- | []]. reflexivity.
Qed.

Lemma distinct_head (name : str) (names : list str) :
  distinct (name :: names) = true ->
  ~ In name names /\ distinct names = true.
Proof.
  cbn [distinct]. intros H. apply andb_true_iff in H as [Hfresh Hd].
  split; [|exact Hd]. intros Hin.
  apply negb_true_iff in Hfresh.
  assert (existsb (str_eqb name) names = true); [|congruence].
  apply existsb_exists. exists name. split; [exact Hin | apply str_eqb_refl].
Qed.

(** The field-mapping loop as a list: when the targets are distinct and
    none is held yet, the loop appends the entries kept, in the order of
    the mapping. *)
Lemma map_fields_fold (export_event : dict) (mappings : list (str * str)) :
  distinct (map snd mappings) = true ->
  forall upload_event,
    (forall tgt, In tgt (map snd mappings) -> dict_get upload_event tgt = None) ->
    fold_left (map_field export_event) mappings upload_event
    = (upload_event ++ flat_map (kept export_event) mappings)%list.
Proof.
  induction mappings as [|mapping mappings IH]; intros Hd upload_event Hfresh;
    cbn [fold_left flat_map]; [now rewrite app_nil_r|].
  cbn [map] in Hd. apply distinct_head in Hd as [Hnotin Hd].
  rewrite map_field_kept by (apply Hfresh; now left).
  rewrite (IH Hd), <- app_assoc; [reflexivity|].
  intros tgt Hin. rewrite dict_get_app, (Hfresh tgt) by now right.
  apply dict_get_None_iff. intros Hk. apply kept_keys in Hk. congruence.
Qed.

Lemma map_fields_flat_map (export_event : dict) :
  map_fields export_event = flat_map (kept export_event) FIELD_MAPPING.
Proof.
  unfold map_fields.
  now rewrite (map_fields_fold export_event FIELD_MAPPING FIELD_MAPPING_distinct).
Qed.

(** The keys of the mapped record are targets, in the order of the
    mapping and without repetition. *)
Lemma flat_map_kept_keys (export_event : dict) (mappings : list (str * str)) :
  distinct (map snd mappings) = true ->
  NoDup (map fst (flat_map (kept export_event) mappings))
  /\ forall k, In k (map fst (flat_map (kept export_event) mappings)) ->
               In k (map snd mappings).
Proof.
  induction mappings as [|mapping mappings IH]; intros Hd;
    cbn [flat_map map]; [split; [constructor | tauto]|].
  cbn [map] in Hd. apply distinct_head in Hd as [Hnotin Hd].
  destruct (IH Hd) as [Hnodup Hsub].
  assert (Hhead : forall k, In k (map fst (kept export_event mapping)) ->
                            k = snd mapping)
    by (intros k; apply kept_keys).
  rewrite map_app. split.
  - unfold kept in *. destruct (copied export_event (fst mapping)); cbn [map app];
      [|exact Hnodup].
    constructor; [|exact Hnodup]. cbn [fst]. intros Hin. apply Hnotin, Hsub, Hin.
  - intros k Hin. apply in_app_or in Hin as [Hin | Hin].
    + left. symmetry. now apply Hhead.
    + right. now apply Hsub.
Qed.

Lemma flat_map_kept_In (export_event : dict) (mappings : list (str * str))
    (k : str) (v : json) :
  In (k, v) (flat_map (kept export_event) mappings) ->
  exists src, In (src, k) mappings /\ copied export_event src = Some v.
Proof.
  intros Hin. apply in_flat_map in Hin as [[src tgt] [Hm Hk]].
  unfold kept in Hk; cbn [fst snd] in Hk.
  destruct (copied export_event src) as [value|] eqn:Hc; [|destruct Hk].
  destruct Hk as [[= <- <-] | []]. now exists src.
Qed.

Variable strptime : str -> str -> option datetime.
Variable local_to_seconds : datetime -> option Z.
Variable int_of_str : str -> option Z.

Abbreviation parse_timestamp' :=
  (parse_timestamp strptime local_to_seconds int_of_str).
Abbreviation convert_event' :=
  (convert_event strptime local_to_seconds int_of_str).

(** [convert_event] once the timestamp is resolved: the record built,
    then the validation. *)
Lemma convert_event_ok (export_event : dict) (t : option Z) :
  parse_timestamp' export_event = Ok t ->
  convert_event' export_event
  = if rejected
         match t with
         | Some z =>
             if truthy_timestamp t
             then dict_set (map_fields export_event) (lit "time") (JInt z)
             else map_fields export_event
         | None => map_fields export_event
         end
    then Ok None
    else Ok (Some
               match t with
               | Some z =>
                   if truthy_timestamp t
                   then dict_set (map_fields export_event) (lit "time") (JInt z)
                   else map_fields export_event
               | None => map_fields export_event
               end).
Proof.
  intros Ht. unfold convert_event. rewrite Ht. cbn [bind]. cbv zeta.
  unfold rejected.
  match goal with
  | |- context [negb (truthy_get ?r ?a || truthy_get ?r ?b)] =>
      destruct (truthy_get r a || truthy_get r b)
  end; cbn [negb orb]; [|reflexivity].
  match goal with
  | |- context [negb (truthy_get ?r ?a)] => destruct (truthy_get r a)
  end; reflexivity.
Qed.

(** The record returned, when one is: the mapped fields, followed by
    [time] when the timestamp resolved is not zero. *)
Lemma convert_event_returned (export_event upload_event : dict) :
  convert_event' export_event = Ok (Some upload_event) ->
  rejected upload_event = false
  /\ ((upload_event = map_fields export_event
       /\ (parse_timestamp' export_event = Ok None
           \/ parse_timestamp' export_event = Ok (Some 0)))
      \/ exists z,
           z <> 0
           /\ parse_timestamp' export_event = Ok (Some z)
           /\ upload_event
              = (map_fields export_event ++ [(lit "time", JInt z)])%list).
Proof.
  destruct (parse_timestamp' export_event) as [t|e] eqn:Ht.
  - rewrite (convert_event_ok export_event t Ht).
    match goal with
    | |- (if rejected ?r then _ else _) = _ -> _ =>
        destruct (rejected r) eqn:Hrej; [discriminate|]
    end.
    intros [= <-]. split; [exact Hrej|].
    destruct t as [z|]; [|left; split; [reflexivity | now left]].
    cbn [truthy_timestamp]. destruct (z =? 0) eqn:Hz; cbn [negb].
    + apply Z.eqb_eq in Hz; subst z. left; split; [reflexivity | now right].
    + apply Z.eqb_neq in Hz. right. exists z. split; [exact Hz|].
      split; [reflexivity|].
      apply dict_set_fresh.
      apply (map_fields_other export_event FIELD_MAPPING (lit "time")).
      reflexivity.
  - unfold convert_event. rewrite Ht. discriminate.
Qed.

(** Every record returned by [convert_event] is valid: it holds an
    [event_type] that is true as a condition and a [user_id] or a
    [device_id] that is, and its [time], when it has one, is the integer
    resolved by [parse_timestamp], which is not zero. *)
Theorem convert_event_record_valid (export_event upload_event : dict) :
  convert_event' export_event = Ok (Some upload_event) ->
  truthy_get upload_event (lit "event_type") = true
  /\ (truthy_get upload_event (lit "user_id") = true
      \/ truthy_get upload_event (lit "device_id") = true)
  /\ forall v,
       dict_get upload_event (lit "time") = Some v ->
       exists z,
         v = JInt z /\ z <> 0
         /\ parse_timestamp' export_event = Ok (Some z).
Proof.
  intros Hret. apply convert_event_returned in Hret as [Hrej Hshape].
  unfold rejected in Hrej. apply orb_false_iff in Hrej as [Hid Htype].
  apply negb_false_iff in Hid, Htype. apply orb_true_iff in Hid.
  split; [exact Htype | split; [exact Hid|]].
  intros v Hv.
  assert (Hnone : dict_get (map_fields export_event) (lit "time") = None)
    by (apply (map_fields_other export_event FIELD_MAPPING (lit "time"));
        reflexivity).
  destruct Hshape as [[-> _] | [z [Hz [Ht ->]]]]; [congruence|].
  rewrite dict_get_app, Hnone in Hv. cbn in Hv. injection Hv as <-.
  now exists z.
Qed.

(** Only mapped fields survive: the keys of a record returned are
    distinct, and each entry is either the target of a mapping with the
    value the raw event holds under its source, a value that is not
    [None], the empty string or the empty dictionary, or the [time]
    resolved. In particular a key that is neither a target nor [time] is
    not in the record. *)
Theorem convert_event_only_mapped_fields (export_event upload_event : dict) :
  convert_event' export_event = Ok (Some upload_event) ->
  NoDup (map fst upload_event)
  /\ (forall k v,
        In (k, v) upload_event ->
        (exists src,
            In (src, k) FIELD_MAPPING
            /\ dict_get export_event src = Some v
            /\ v <> JNull /\ v <> JStr [] /\ v <> JObj [])
        \/ (k = lit "time"
            /\ exists z, v = JInt z /\ z <> 0
                         /\ parse_timestamp' export_event = Ok (Some z)))
  /\ (forall k,
        ~ In k (map snd FIELD_MAPPING) -> k <> lit "time" ->
        dict_get upload_event k = None).
Proof.
  intros Hret. apply convert_event_returned in Hret as [_ Hshape].
  destruct (flat_map_kept_keys export_event FIELD_MAPPING FIELD_MAPPING_distinct)
    as [Hnodup Hsub].
  assert (Hmapped : forall k v,
            In (k, v) (map_fields export_event) ->
            exists src,
              In (src, k) FIELD_MAPPING
              /\ dict_get export_event src = Some v
              /\ v <> JNull /\ v <> JStr [] /\ v <> JObj []).
  { intros k v Hin. rewrite map_fields_flat_map in Hin.
    apply flat_map_kept_In in Hin as [src [Hm Hc]].
    apply copied_not_absent in Hc as [Hget Habs].
    exists src. split; [exact Hm | split; [exact Hget | now apply absent_false]]. }
  rewrite <- map_fields_flat_map in Hnodup, Hsub.
  destruct Hshape as [[-> _] | [z [Hz [Ht ->]]]].
  - split; [exact Hnodup | split].
    + intros k v Hin. left. now apply Hmapped.
    + intros k Hk _. apply dict_get_None_iff. intros Hin. apply Hk, Hsub, Hin.
  - split; [|split].
    + rewrite map_app. cbn [map fst].
      apply NoDup_app; [exact Hnodup | repeat constructor; intros [] |].
      intros k Hin [<- | []]. apply Hsub in Hin.
      apply in_map_iff in Hin as [[src tgt] [Heq Hin]]. cbn [snd] in Heq.
      subst tgt. pose proof (FIELD_MAPPING_not_time src _ Hin) as Hne.
      now rewrite str_eqb_refl in Hne.
    + intros k v Hin. apply in_app_or in Hin as [Hin | [[= <- <-] | []]].
      * left. now apply Hmapped.
      * right. split; [reflexivity | now exists z].
    + intros k Hk Htime. rewrite dict_get_app.
      assert (Hnone : dict_get (map_fields export_event) k = None).
      { apply dict_get_None_iff. intros Hin. apply Hk, Hsub, Hin. }
      rewrite Hnone. cbn [dict_get].
      destruct (str_eqb (lit "time") k) eqn:Heq; [|reflexivity].
      apply str_eqb_eq in Heq. congruence.
Qed.

Lemma FIELD_MAPPING_identity (src tgt : str) :
  In (src, tgt) FIELD_MAPPING -> src = tgt.
Proof.
  assert (Hall : forallb (fun m => str_eqb (fst m) (snd m)) FIELD_MAPPING = true)
    by reflexivity.
  intros Hin. rewrite forallb_forall in Hall.
  apply str_eqb_eq. exact (Hall (src, tgt) Hin).
Qed.

Lemma flat_map_kept_ext (a b : dict) (mappings : list (str * str)) :
  (forall m, In m mappings -> kept a m = kept b m) ->
  flat_map (kept a) mappings = flat_map (kept b) mappings.
Proof.
  induction mappings as [|m mappings IH]; intros Hext; cbn [flat_map];
    [reflexivity|].
  rewrite (Hext m) by now left. rewrite IH; [reflexivity|].
  intros m' Hin. apply Hext. now right.
Qed.

(** Mapping the fields of a record that is the mapped record of a raw
    event, with or without [time] after it, gives the mapped record
    again. *)
Lemma map_fields_again (export_event : dict) (tail : dict) :
  (forall k, In k (map fst tail) -> k = lit "time") ->
  map_fields (map_fields export_event ++ tail)%list = map_fields export_event.
Proof.
  intros Htail.
  transitivity (flat_map (kept export_event) FIELD_MAPPING);
    [|symmetry; apply map_fields_flat_map].
  rewrite (map_fields_flat_map (map_fields export_event ++ tail)%list).
  apply flat_map_kept_ext. intros [src tgt] Hin.
  unfold kept; cbn [fst snd].
  assert (Hget : dict_get (map_fields export_event ++ tail)%list src
                 = copied export_event src).
  { pose proof (FIELD_MAPPING_identity src tgt Hin) as ->.
    rewrite dict_get_app, (map_fields_copied export_event tgt tgt Hin).
    destruct (copied export_event tgt); [reflexivity|].
    apply dict_get_None_iff. intros Hk. apply Htail in Hk. subst tgt.
    pose proof (FIELD_MAPPING_not_time _ _ Hin) as Hne.
    now rewrite str_eqb_refl in Hne. }
  assert (Hcopied : copied (map_fields export_event ++ tail)%list src
                    = copied export_event src).
  { unfold copied at 1. rewrite Hget.
    destruct (copied export_event src) as [value|] eqn:Hc; [|reflexivity].
    apply copied_not_absent in Hc as [_ ->]. reflexivity. }
  now rewrite Hcopied.
Qed.

(** The timestamp of a record returned: none of the three text fields is
    in it, so the resolution goes to its [time]. *)
Lemma parse_timestamp_of_record (export_event : dict) (tail : dict) :
  (forall k, In k (map fst tail) -> k = lit "time") ->
  parse_timestamp' (map_fields export_event ++ tail)%list
  = numeric_fallback int_of_str (map_fields export_event ++ tail)%list.
Proof.
  intros Htail. unfold parse_timestamp.
  apply timestamp_loop_skipped.
  assert (Hskip : forall f,
            existsb (str_eqb f) (map snd FIELD_MAPPING) = false ->
            str_eqb f (lit "time") = false ->
            skipped strptime local_to_seconds
              (map_fields export_event ++ tail)%list f).
  { intros f Hf Hne. unfold skipped.
    assert (Hnone : dict_get (map_fields export_event ++ tail)%list f = None).
    { assert (Hmf : dict_get (map_fields export_event) f = None)
        by apply (map_fields_other export_event FIELD_MAPPING f Hf []).
      rewrite dict_get_app, Hmf.
      apply dict_get_None_iff. intros Hk.
      apply Htail in Hk. subst f. now rewrite str_eqb_refl in Hne. }
    now rewrite Hnone. }
  repeat constructor; apply Hskip; reflexivity.
Qed.

(** Converting a converted record changes nothing: [convert_event]
    returns the record it is given whenever that record was returned by
    [convert_event]. *)
Theorem convert_event_idempotent (export_event upload_event : dict) :
  convert_event' export_event = Ok (Some upload_event) ->
  convert_event' upload_event = Ok (Some upload_event).
Proof.
  intros Hret. apply convert_event_returned in Hret as [Hrej Hshape].
  assert (Hnone : dict_get (map_fields export_event) (lit "time") = None)
    by (apply (map_fields_other export_event FIELD_MAPPING (lit "time"));
        reflexivity).
  destruct Hshape as [[-> _] | [z [Hz [_ ->]]]].
  - assert (Ht : parse_timestamp' (map_fields export_event) = Ok None).
    { pose proof (parse_timestamp_of_record export_event []) as Hp.
      rewrite app_nil_r in Hp. rewrite Hp by (intros k []).
      unfold numeric_fallback. now rewrite Hnone. }
    rewrite (convert_event_ok _ None Ht).
    pose proof (map_fields_again export_event []) as Hagain.
    rewrite app_nil_r in Hagain. rewrite Hagain by (intros k []).
    now rewrite Hrej.
  - assert (Htail : forall k, In k (map fst [(lit "time", JInt z)]) ->
                              k = lit "time")
      by (intros k [<- | []]; reflexivity).
    assert (Ht : parse_timestamp'
                   (map_fields export_event ++ [(lit "time", JInt z)])%list
                 = Ok (Some z)).
    { rewrite (parse_timestamp_of_record export_event _ Htail).
      unfold numeric_fallback. rewrite dict_get_app, Hnone.
      cbn [dict_get]. rewrite str_eqb_refl. cbn [truthy py_int bind].
      apply Z.eqb_neq in Hz. now rewrite Hz. }
    rewrite (convert_event_ok _ (Some z) Ht).
    rewrite (map_fields_again export_event _ Htail).
    cbn [truthy_timestamp]. apply Z.eqb_neq in Hz. rewrite Hz. cbn [negb].
    rewrite (dict_set_fresh _ _ _ Hnone). now rewrite Hrej.
Qed.

Lemma map_fields_agree (a b : dict) (mappings : list (str * str)) :
  (forall m, In m mappings -> dict_get a (fst m) = dict_get b (fst m)) ->
  forall upload_event,
    fold_left (map_field a) mappings upload_event
    = fold_left (map_field b) mappings upload_event.
Proof.
  induction mappings as [|[src tgt] mappings IH]; intros Hagree upload_event;
    cbn [fold_left]; [reflexivity|].
  assert (Hhead : map_field a upload_event (src, tgt)
                  = map_field b upload_event (src, tgt)).
  { pose proof (Hagree (src, tgt) (or_introl eq_refl)) as Hsrc.
    cbn [fst] in Hsrc. unfold map_field. now rewrite Hsrc. }
  rewrite Hhead. apply IH. intros m Hin. apply Hagree. now right.
Qed.

Lemma timestamp_loop_agree (a b : dict) (fields : list str) :
  (forall f, In f fields -> dict_get a f = dict_get b f) ->
  dict_get a (lit "time") = dict_get b (lit "time") ->
  timestamp_loop strptime local_to_seconds int_of_str fields a
  = timestamp_loop strptime local_to_seconds int_of_str fields b.
Proof.
  intros Hagree Htime.
  induction fields as [|f fields IH]; cbn [timestamp_loop].
  - unfold numeric_fallback. now rewrite Htime.
  - rewrite (Hagree f (or_introl eq_refl)), IH; [reflexivity|].
    intros f' Hin. apply Hagree. now right.
Qed.

(** [convert_event] reads a raw event only through the sources of the
    mapping, the three timestamp fields and [time]: two raw events that
    hold the same values under these keys are converted alike, so no
    other field can change the record returned, make the conversion
    fail, or make it succeed. *)
Theorem convert_event_reads_relevant_keys (a b : dict) :
  (forall k, In k relevant_keys -> dict_get a k = dict_get b k) ->
  convert_event' a = convert_event' b.
Proof.
  intros Hagree.
  assert (Hmf : map_fields a = map_fields b).
  { unfold map_fields. apply map_fields_agree. intros [src tgt] Hin.
    apply Hagree. unfold relevant_keys. apply in_or_app. left.
    cbn [fst]. apply in_map_iff. now exists (src, tgt). }
  assert (Hpt : parse_timestamp' a = parse_timestamp' b).
  { unfold parse_timestamp. apply timestamp_loop_agree.
    - intros f Hin. apply Hagree. unfold relevant_keys.
      apply in_or_app. right. apply in_or_app. now left.
    - apply Hagree. unfold relevant_keys.
      apply in_or_app. right. apply in_or_app. right. now left. }
  unfold convert_event. now rewrite Hmf, Hpt.
Qed.

End ConvertedRecords.

Section ConcreteRecords.
Import Py Json Convert Records.

Abbreviation convert_utc :=
  (convert_event Library.strptime (Library.local_to_seconds 0)
     Library.int_of_str).

Lemma convert_event_login_record :
  convert_utc Library.login_event = Ok (Some login_record).
Proof. vm_compute. reflexivity. Qed.

(** [convert_event_record_valid] at [login_event]. *)
Lemma convert_event_record_valid_witness :
  truthy_get login_record (lit "event_type") = true
  /\ (truthy_get login_record (lit "user_id") = true
      \/ truthy_get login_record (lit "device_id") = true)
  /\ forall v,
       dict_get login_record (lit "time") = Some v ->
       exists z,
         v = JInt z /\ z <> 0
         /\ parse_timestamp Library.strptime (Library.local_to_seconds 0)
              Library.int_of_str Library.login_event
            = Ok (Some z).
Proof.
  apply (convert_event_record_valid
           Library.strptime (Library.local_to_seconds 0) Library.int_of_str
           Library.login_event login_record).
  vm_compute. reflexivity.
Defined.

(** [convert_event_only_mapped_fields] at [login_event]: the field
    [event_time] is not in the record. *)
Lemma convert_event_only_mapped_fields_witness :
  dict_get login_record (lit "event_time") = None.
Proof.
  apply (proj2 (proj2 (convert_event_only_mapped_fields
                         Library.strptime (Library.local_to_seconds 0)
                         Library.int_of_str
                         Library.login_event login_record
                         convert_event_login_record))).
  - intros Hin. apply in_map_iff in Hin as [[src tgt] [Heq Hin]].
    cbn [snd] in Heq. subst tgt.
    assert (Hnot : existsb (str_eqb (lit "event_time")) (map snd FIELD_MAPPING)
                   = false) by reflexivity.
    assert (Hyes : existsb (str_eqb (lit "event_time")) (map snd FIELD_MAPPING)
                   = true); [|congruence].
    apply existsb_exists. exists (lit "event_time").
    split; [|apply str_eqb_refl].
    apply in_map_iff. now exists (src, lit "event_time").
  - discriminate.
Defined.

(** [convert_event_idempotent] at [login_event]. *)
Lemma convert_event_idempotent_witness :
  convert_utc login_record = Ok (Some login_record).
Proof.
  apply (convert_event_idempotent
           Library.strptime (Library.local_to_seconds 0) Library.int_of_str
           Library.login_event login_record).
  vm_compute. reflexivity.
Defined.

(** [convert_event_reads_relevant_keys] at [login_event] with a field
    [plan] put in front of it. *)
Lemma convert_event_reads_relevant_keys_witness :
  convert_utc (with_field (lit "plan") (JStr (lit "pro")) Library.login_event)
  = convert_utc Library.login_event.
Proof.
  apply (convert_event_reads_relevant_keys
           Library.strptime (Library.local_to_seconds 0) Library.int_of_str).
  intros k Hin.
  assert (Hall : forallb (fun k => negb (str_eqb (lit "plan") k)) relevant_keys
                 = true) by reflexivity.
  rewrite forallb_forall in Hall. specialize (Hall k Hin).
  apply negb_true_iff in Hall.
  unfold with_field. cbn [dict_get]. now rewrite Hall.
Defined.

End ConcreteRecords.

(* ================================================================= *)
(** ** Properties of the generated script *)

Section GeneratedScript.
Import Py Json Bundle Script Shell.

Lemma append_push (w : string) (c : ascii) (rest : string) :
  ((w ++ String c EmptyString) ++ rest)%string = (w ++ String c rest)%string.
Proof.
  induction w as [|d w IH]; cbn [append]; [reflexivity | now rewrite IH].
Qed.

Lemma append_empty (w : string) : (w ++ EmptyString)%string = w.
Proof.
  induction w as [|d w IH]; cbn [append]; [reflexivity | now rewrite IH].
Qed.

(** Inside the quotes opened by the template, the escaped payload
    followed by the closing quote is read as the payload itself. *)
Lemma scan_escaped_payload (payload : string) :
  forall (w : string) (words : list string),
    scan true (Some w) words (shell_escape payload ++ String squote EmptyString)
    = Some (rev ((w ++ payload)%string :: words)).
Proof.
  induction payload as [|c payload IH]; intros w words.
  - cbn. now rewrite append_empty.
  - cbn [shell_escape]. destruct (Ascii.eqb c squote) eqn:Hc.
    + apply Ascii.eqb_eq in Hc; subst c.
      cbn [append scan push].
      change (Ascii.eqb squote squote) with true.
      change (Ascii.eqb backslash squote) with false.
      change (Ascii.eqb squote backslash) with false.
      change (Ascii.eqb backslash backslash) with true.
      change (Ascii.eqb squote newline) with false.
      cbn iota. cbn [push].
      rewrite IH, append_push. reflexivity.
    + cbn [append scan]. rewrite Hc. cbn [push].
      rewrite IH, append_push. reflexivity.
Qed.

Variable float_repr : float -> string.

(** The shell reads the curl command of a generated script as exactly
    eight words, the last of which is the compact JSON payload, byte for
    byte: whatever the events and the key contain (quotes, backslashes,
    dollars, blanks), nothing of the payload is lost, altered or read as
    shell syntax. *)
Theorem curl_command_words (batch_num : Z) (api_key : str)
    (events : list event) (eu : bool) :
  sh_words (curl_command
              (generate_curl_script float_repr batch_num api_key events eu))
  = Some [ "curl"; "-X"; "POST";
           (if eu then "https://api.eu.amplitude.com/batch"
            else "https://api2.amplitude.com/batch");
           "-H"; "Content-Type: application/json"; "-d";
           dumps_compact float_repr (create_payload api_key events) ]%string.
Proof.
  unfold sh_words, curl_command, generate_curl_script.
  cbn [script_endpoint script_payload_json].
  set (payload := dumps_compact float_repr (create_payload api_key events)).
  set (rest := (shell_escape payload ++ "'")%string).
  destruct eu; cbn; subst rest;
    change "'"%string with (String squote EmptyString);
    rewrite scan_escaped_payload; reflexivity.
Qed.

End GeneratedScript.

Section ScriptNames.
Import Py Json Bundle Script.

Lemma zeros_string_of_uint (k : nat) (u : Decimal.uint) :
  (string_of_list_ascii (repeat "0"%char k) ++ NilEmpty.string_of_uint u)%string
  = NilEmpty.string_of_uint (Nat.iter k Decimal.D0 u).
Proof.
  induction k as [|k IH]; cbn [repeat string_of_list_ascii append Nat.iter];
    [reflexivity|].
  cbn [NilEmpty.string_of_uint]. now rewrite IH.
Qed.

Lemma of_uint_zeros (k : nat) (u : Decimal.uint) :
  Z.of_uint (Nat.iter k Decimal.D0 u) = Z.of_uint u.
Proof.
  induction k as [|k IH]; [reflexivity|].
  cbn [Nat.iter]. rewrite <- IH. reflexivity.
Qed.

(** The padded digits of a batch number read back as the number. *)
Lemma read_format_04d (batch_num : Z) :
  0 <= batch_num -> read_digits (format_04d batch_num) = Some batch_num.
Proof.
  intros Hnn. unfold format_04d, read_digits.
  assert (Hsign : (batch_num <? 0) = false) by now apply Z.ltb_ge.
  rewrite Hsign, Z.abs_eq by exact Hnn. cbn [append String.length Nat.add].
  unfold int_repr.
  assert (Hrepr : exists u,
             Z.to_int batch_num = Decimal.Pos u
             /\ NilZero.string_of_int (Z.to_int batch_num)
                = NilEmpty.string_of_uint u).
  { destruct batch_num as [|p|p]; [| |lia].
    - exists Decimal.zero. split; reflexivity.
    - exists (Pos.to_uint p). split; [reflexivity|].
      cbn [Z.to_int NilZero.string_of_int]. unfold NilZero.string_of_uint.
      pose proof (DecimalPos.Unsigned.to_uint_nonnil p) as Hnil.
      destruct (Pos.to_uint p); [now elim Hnil | reflexivity..]. }
  destruct Hrepr as [u [Hu ->]].
  rewrite zeros_string_of_uint, NilEmpty.usu. cbn [option_map].
  rewrite of_uint_zeros. f_equal.
  change (Z.of_uint u) with (Z.of_int (Decimal.Pos u)).
  rewrite <- Hu. apply DecimalZ.of_to.
Qed.

Lemma string_length_app (a b : string) :
  String.length (a ++ b) = (String.length a + String.length b)%nat.
Proof.
  induction a as [|c a IH]; cbn [append String.length Nat.add];
    [reflexivity | now rewrite IH].
Qed.

Lemma append_cancel_r (a b t : string) :
  (a ++ t)%string = (b ++ t)%string -> a = b.
Proof.
  revert b. induction a as [|c a IH]; intros [|d b] H; cbn [append] in H.
  - reflexivity.
  - apply (f_equal String.length) in H. cbn [String.length] in H.
    rewrite string_length_app in H. lia.
  - apply (f_equal String.length) in H. cbn [String.length] in H.
    rewrite string_length_app in H. lia.
  - injection H as -> H. f_equal. now apply IH.
Qed.

Lemma script_name_inj (i j : Z) :
  0 <= i -> 0 <= j -> script_name i = script_name j -> i = j.
Proof.
  intros Hi Hj Hname. unfold script_name in Hname.
  cbn [append] in Hname. injection Hname as Hname.
  apply append_cancel_r in Hname.
  pose proof (read_format_04d i Hi) as Ri.
  pose proof (read_format_04d j Hj) as Rj.
  rewrite Hname in Ri. congruence.
Qed.

Variable float_repr : float -> string.

(** The scripts that [main] generates in one run have pairwise distinct
    file names: no script overwrites another one, however many batches
    there are (beyond 9999 the number simply takes more digits). *)
Theorem main_bundle_script_names_distinct (all_events : list event)
    (api_key : str) (eu : bool) :
  NoDup (map (fun r => script_name (script_batch_num (report_script r)))
           (main_bundle float_repr all_events api_key eu)).
Proof.
  assert (Hmain : main_bundle float_repr all_events api_key eu
                  = report_batches float_repr 1
                      (batch_events float_repr all_events api_key) api_key eu).
  { destruct all_events; reflexivity. }
  rewrite Hmain.
  rewrite <- (map_map (fun r => script_batch_num (report_script r)) script_name).
  rewrite (report_batches_numbers float_repr api_key eu _ 1%nat).
  rewrite map_map.
  apply Injective_map_NoDup_in; [|apply seq_NoDup].
  intros a b Ha Hb Heq. apply script_name_inj in Heq; lia.
Qed.

End ScriptNames.

(* ================================================================= *)
(** ** Properties of [process_json_file] and [read_all_events] *)

Section ProcessJsonFile.
Import Py Json Convert Records Files.

Variable loads : str -> loaded.
Variable strptime : str -> str -> option datetime.
Variable local_to_seconds : datetime -> option Z.
Variable int_of_str : str -> option Z.

Abbreviation convert_value' :=
  (convert_value strptime local_to_seconds int_of_str).
Abbreviation process_line' :=
  (process_line loads strptime local_to_seconds int_of_str).
Abbreviation process_lines' :=
  (process_lines loads strptime local_to_seconds int_of_str).

(** A line on which the loop stops with the exception [e]: it is not
    blank, and [json.loads] raises [e], which is not
    [json.JSONDecodeError], or returns a value on which [convert_event]
    raises [e]. *)
Abbreviation fatal line e :=
  (counted line = true
   /\ (loads (Library.strip line) = LoadsRaises e
       \/ exists v e',
            loads (Library.strip line) = Loaded v
            /\ convert_value' v = Raise e' /\ e = Builtin e')).

(** A value that is not a dictionary is never converted. *)
Lemma convert_other_from_none (keys : list str) (value : json)
    (r : option dict) :
  convert_other_from keys value = Ok r -> r = None.
Proof.
  induction keys as [|key keys IH]; cbn [convert_other_from].
  - now intros [= <-].
  - destruct (key_in key value) as [[|]|e]; cbn [bind];
      [discriminate | exact IH | discriminate].
Qed.

Lemma convert_value_valid (value : json) (record : dict) :
  convert_value' value = Ok (Some record) -> rejected record = false.
Proof.
  destruct value as [ | b | z | f | s | items | members ]; cbn [convert_value];
    try (intros H; apply convert_other_from_none in H; discriminate H).
  intros H. now apply convert_event_returned in H.
Qed.

(** The outcomes of a line: it is passed over, counted as skipped, or
    converted to a valid record, and is not fatal; or it is fatal and
    its exception leaves the loop. *)
Lemma process_line_cases (converted : list dict) (skipped : Z) (line : str) :
  ((forall e, ~ fatal line e)
   /\ ((counted line = false
        /\ process_line' (converted, skipped) line
           = Completed (converted, skipped))
       \/ (counted line = true
           /\ process_line' (converted, skipped) line
              = Completed (converted, skipped + 1))
       \/ (counted line = true
           /\ exists record,
                rejected record = false
                /\ process_line' (converted, skipped) line
                   = Completed ((converted ++ [record])%list, skipped))))
  \/ (exists e,
        fatal line e
        /\ (forall e', fatal line e' -> e' = e)
        /\ process_line' (converted, skipped) line = Failed e).
Proof.
  unfold process_line, counted.
  destruct (Library.strip line) as [|c stripped] eqn:Hstrip.
  { left. split; [intros e [Hc _]; discriminate Hc | now left]. }
  destruct (loads (c :: stripped)) as [v | | e] eqn:Hloads.
  - destruct (convert_value' v) as [r|e] eqn:Hconv.
    + left. split.
      * intros e [_ [Hl | [v' [e' [Hl [Hv _]]]]]]; [discriminate Hl|].
        injection Hl as <-. congruence.
      * right. destruct r as [[|entry entries]|].
        -- left; now split.
        -- right. split; [reflexivity|].
           exists (entry :: entries). split; [|reflexivity].
           now apply (convert_value_valid v).
        -- left; now split.
    + right. exists (Builtin e). split; [|split; [|reflexivity]].
      * split; [reflexivity|]. right. now exists v, e.
      * intros e' [_ [Hl | [v' [e'' [Hl [Hv ->]]]]]]; [discriminate Hl|].
        injection Hl as <-. congruence.
  - left. split.
    + intros e [_ [Hl | [v [e' [Hl _]]]]]; discriminate Hl.
    + right; left; now split.
  - right. exists e. split; [|split; [|reflexivity]].
    + split; [reflexivity | now left].
    + intros e' [_ [Hl | [v [e'' [Hl _]]]]]; [congruence | discriminate Hl].
Qed.

Lemma process_lines_accounts (lines : list str) :
  forall converted skipped converted' skipped',
    process_lines' lines (converted, skipped)
    = Completed (converted', skipped') ->
    len converted' + skipped'
    = len converted + skipped + len (filter counted lines)
    /\ skipped <= skipped'
    /\ (Forall (fun record => rejected record = false) converted ->
        Forall (fun record => rejected record = false) converted').
Proof.
  induction lines as [|line lines IH]; intros converted skipped converted' skipped';
    cbn [process_lines filter].
  - intros [= <- <-]. unfold len; cbn. repeat split; [lia | lia | auto].
  - destruct (process_line_cases converted skipped line)
      as [[_ [[Hc ->] | [[Hc ->] | [Hc [record [Hvalid ->]]]]]]
         | [e [_ [_ ->]]]];
      try discriminate; rewrite Hc; intros Hrest;
      apply IH in Hrest as [Hsum [Hle Hall]].
    + repeat split; assumption.
    + unfold len in *; cbn [List.length] in *.
      repeat split; [lia | lia | exact Hall].
    + unfold len in *; cbn [List.length] in *. rewrite length_app in Hsum.
      cbn [List.length] in Hsum.
      repeat split; [lia | lia |].
      intros Hconv. apply Hall, Forall_app. split; [exact Hconv|].
      now constructor.
Qed.

(** The accounts of [process_json_file]: when it returns, every line
    that is not blank is either converted or counted as skipped, and
    every record returned passed the validation (it holds an
    [event_type], and a [user_id] or a [device_id], that are true as
    conditions). *)
Theorem process_json_file_accounts (text : str)
    (converted : list dict) (skipped : Z) :
  process_json_file loads strptime local_to_seconds int_of_str text
  = Completed (converted, skipped) ->
  len converted + skipped = len (filter counted (file_lines text))
  /\ 0 <= skipped
  /\ Forall (fun record =>
               truthy_get record (lit "event_type") = true
               /\ (truthy_get record (lit "user_id") = true
                   \/ truthy_get record (lit "device_id") = true))
       converted.
Proof.
  unfold process_json_file. intros Hret.
  apply process_lines_accounts in Hret as [Hsum [Hle Hall]].
  unfold len in *; cbn [List.length] in *.
  repeat split; [lia | lia |].
  specialize (Hall (Forall_nil _)).
  eapply Forall_impl; [|exact Hall].
  intros record Hrej. unfold rejected in Hrej.
  apply orb_false_iff in Hrej as [Hid Htype].
  apply negb_false_iff in Hid, Htype. apply orb_true_iff in Hid.
  now split.
Qed.



End ProcessJsonFile.

Section PrintableText.
Import Py Json Files.

Lemma printable_String (c : ascii) (text : string) :
  printable (String c text)
  <-> (32 <= N_of_ascii c <= 126)%N /\ printable text.
Proof.
  unfold printable; cbn [list_ascii_of_string].
  split; [intros H; inversion H; now split | intros [Hc Ht]; now constructor].
Qed.

Lemma printable_app (a b : string) :
  printable a -> printable b -> printable (a ++ b).
Proof.
  intros Ha Hb. induction a as [|c a IH]; cbn [append]; [exact Hb|].
  apply printable_String in Ha as [Hc Ha].
  apply printable_String. split; [exact Hc | now apply IH].
Qed.

Lemma printable_concat (sep : string) (texts : list string) :
  printable sep -> Forall printable texts ->
  printable (String.concat sep texts).
Proof.
  intros Hsep Hall. induction Hall as [|t texts Ht Hall IH]; [constructor|].
  destruct texts as [|t' texts]; [exact Ht|].
  change (String.concat sep (t :: t' :: texts))
    with (t ++ sep ++ String.concat sep (t' :: texts))%string.
  now repeat apply printable_app.
Qed.

Lemma hex_digit_printable (n : N) : (32 <= N_of_ascii (hex_digit n) <= 126)%N.
Proof.
  destruct n as [|p]; [cbn; lia|].
  do 4 (try destruct p as [p|p|]); cbn; lia.
Qed.

Lemma u_escape_printable (n : N) : printable (u_escape n).
Proof.
  unfold u_escape.
  repeat (apply printable_String; split;
          [first [apply hex_digit_printable | cbn; lia]|]).
  constructor.
Qed.

Lemma escape_char_printable (c : N) : printable (escape_char c).
Proof.
  unfold escape_char.
  repeat match goal with
         | |- printable (if ?b then _ else _) => destruct b eqn:?
         end;
    try solve [repeat (apply printable_String; split; [cbn; lia|]);
               constructor].
  - apply printable_String. split; [|constructor].
    match goal with
    | H : ((32 <=? c) && (c <=? 126))%N = true |- _ =>
        apply andb_true_iff in H as [Hlo Hhi];
        apply N.leb_le in Hlo, Hhi
    end.
    rewrite N_ascii_embedding by lia. lia.
  - apply u_escape_printable.
  - apply printable_app; apply u_escape_printable.
Qed.

Lemma escape_chars_printable (s : str) : printable (escape_chars s).
Proof.
  induction s as [|c s IH]; cbn [escape_chars]; [constructor|].
  apply printable_app; [apply escape_char_printable | exact IH].
Qed.

Lemma py_encode_basestring_ascii_printable (s : str) :
  printable (py_encode_basestring_ascii s).
Proof.
  unfold py_encode_basestring_ascii.
  apply printable_String. split; [cbn; lia|].
  apply printable_app; [apply escape_chars_printable|].
  apply printable_String. split; [cbn; lia | constructor].
Qed.

Lemma string_of_uint_printable (u : Decimal.uint) :
  printable (NilEmpty.string_of_uint u).
Proof.
  induction u; cbn [NilEmpty.string_of_uint]; [constructor|..];
    (apply printable_String; split; [cbn; lia | assumption]).
Qed.

Lemma int_repr_printable (z : Z) : printable (int_repr z).
Proof.
  unfold int_repr.
  destruct (Z.to_int z) as [u|u]; cbn [NilZero.string_of_int].
  - destruct u; try apply string_of_uint_printable.
    cbn. repeat constructor; cbn; lia.
  - apply printable_String. split; [cbn; lia|].
    destruct u; try apply string_of_uint_printable.
    cbn. repeat constructor; cbn; lia.
Qed.

Variable float_repr : float -> string.
Hypothesis float_repr_printable : forall f, printable (float_repr f).

(** With [ensure_ascii] the text of a value holds printable ASCII
    characters only, for separators that do. *)
Lemma encode_printable (item_separator key_separator : string) (o : json) :
  printable item_separator -> printable key_separator ->
  printable (encode float_repr item_separator key_separator o).
Proof.
  intros Hitem Hkey.
  induction o as [ | b | z | f | s | items IH | members IH ] using json_induction;
    cbn [encode].
  - repeat constructor; cbn; lia.
  - destruct b; repeat constructor; cbn; lia.
  - apply int_repr_printable.
  - apply float_repr_printable.
  - apply py_encode_basestring_ascii_printable.
  - apply printable_String. split; [cbn; lia|].
    apply printable_app; [|repeat constructor; cbn; lia].
    apply printable_concat; [exact Hitem|].
    apply Forall_forall. intros t Ht.
    apply in_map_iff in Ht as [v [<- Hv]]. now apply IH.
  - apply printable_String. split; [cbn; lia|].
    apply printable_app; [|repeat constructor; cbn; lia].
    apply printable_concat; [exact Hitem|].
    apply Forall_forall. intros t Ht.
    apply in_map_iff in Ht as [[k v] [<- Hv]]. cbn [fst snd].
    apply printable_app; [apply py_encode_basestring_ascii_printable|].
    apply printable_app; [exact Hkey | now apply (IH k)].
Qed.

Lemma dumps_printable (o : json) : printable (dumps float_repr o).
Proof.
  apply encode_printable; repeat constructor; cbn; lia.
Qed.

End PrintableText.

Section ConvertedFiles.
Import Py Json Convert Files.

Lemma lit_String (c : ascii) (text : string) :
  lit (String c text) = N_of_ascii c :: lit text.
Proof. reflexivity. Qed.

Lemma lit_app (a b : string) : lit (a ++ b) = (lit a ++ lit b)%list.
Proof.
  induction a as [|c a IH]; cbn [append]; [reflexivity|].
  rewrite !lit_String, IH. reflexivity.
Qed.

Lemma lit_printable (text : string) :
  printable text -> Forall (fun c => (32 <= c <= 126)%N) (lit text).
Proof.
  unfold printable, lit. intros H. now apply Forall_map.
Qed.

(** A run of characters without line ends, followed by [\n], is one
    line. *)
Lemma file_lines_from_line (s : str) :
  Forall (fun c => (32 <= c <= 126)%N) s ->
  forall line rest,
    file_lines_from line (s ++ 10%N :: rest)%list
    = (rev line ++ s ++ [10%N])%list :: file_lines_from [] rest.
Proof.
  induction 1 as [|c s Hc _ IH]; intros line rest; cbn [app file_lines_from].
  - cbn [rev]. reflexivity.
  - assert (H10 : (c =? 10)%N = false) by (apply N.eqb_neq; lia).
    assert (H13 : (c =? 13)%N = false) by (apply N.eqb_neq; lia).
    rewrite H10, H13, IH. cbn [rev]. now rewrite <- app_assoc.
Qed.

(** White space around a text that starts and ends with a character that
    is not white space: [strip] removes the line end. *)
Lemma strip_line (a b : N) (middle : str) :
  Library.is_space a = false -> Library.is_space b = false ->
  Library.strip (a :: middle ++ [b; 10%N])%list = (a :: middle ++ [b])%list.
Proof.
  intros Ha Hb. unfold Library.strip.
  assert (Hleft : Library.strip_left (a :: middle ++ [b; 10%N])%list
                  = (a :: middle ++ [b; 10%N])%list)
    by (cbn [Library.strip_left]; now rewrite Ha).
  assert (Hrev : rev (a :: middle ++ [b; 10%N])%list
                 = (10%N :: b :: rev middle ++ [a])%list).
  { cbn [rev]. rewrite rev_app_distr. reflexivity. }
  assert (Hright : Library.strip_left (10%N :: b :: rev middle ++ [a])%list
                   = (b :: rev middle ++ [a])%list).
  { cbn [Library.strip_left]. change (Library.is_space 10) with true.
    cbn iota. now rewrite Hb. }
  rewrite Hleft, Hrev, Hright.
  cbn [rev]. rewrite rev_app_distr, rev_involutive. reflexivity.
Qed.

Variable float_repr : float -> string.
Variable loads : str -> loaded.

Hypothesis float_repr_printable : forall f, printable (float_repr f).

Abbreviation line_of event :=
  (lit (dumps float_repr (JObj event)) ++ [10%N])%list.

Lemma file_lines_converted_text (events : list dict) :
  file_lines (converted_text float_repr events) = map (fun e => line_of e) events.
Proof.
  unfold file_lines, converted_text.
  induction events as [|event events IH]; [reflexivity|].
  cbn [map List.concat]. rewrite <- app_assoc. cbn [app].
  rewrite file_lines_from_line, IH; [reflexivity|].
  apply lit_printable, dumps_printable, float_repr_printable.
Qed.

(** The text of a dictionary between its braces. *)
Lemma dumps_dict_braces (event : dict) :
  exists middle,
    lit (dumps float_repr (JObj event)) = (123%N :: middle ++ [125%N])%list.
Proof.
  unfold dumps. cbn [encode append].
  eexists. rewrite lit_String, lit_app. reflexivity.
Qed.

Lemma read_line_converted (event : dict) (all_events : list json) :
  loads (lit (dumps float_repr (JObj event))) = Loaded (JObj event) ->
  read_line loads all_events (line_of event)
  = Completed (all_events ++ [JObj event])%list.
Proof.
  intros Hloads. unfold read_line.
  destruct (dumps_dict_braces event) as [middle Htext].
  assert (Hstrip : Library.strip (line_of event)
                   = lit (dumps float_repr (JObj event))).
  { rewrite Htext. cbn [app]. rewrite <- app_assoc. cbn [app].
    apply strip_line; reflexivity. }
  rewrite Hstrip. rewrite Htext in Hloads |- *. cbn iota.
  now rewrite Hloads.
Qed.

Lemma read_lines_converted (events : list dict) :
  (forall event, In event events ->
                 loads (lit (dumps float_repr (JObj event)))
                 = Loaded (JObj event)) ->
  forall all_events,
    read_lines loads (map (fun e => line_of e) events) all_events
    = Completed (all_events ++ map JObj events)%list.
Proof.
  induction events as [|event events IH]; intros Hloads all_events;
    cbn [map read_lines]; [now rewrite app_nil_r|].
  rewrite read_line_converted by (apply Hloads; now left).
  rewrite IH by (intros e He; apply Hloads; now right).
  now rewrite <- app_assoc.
Qed.

(** What the conversion writes, the bundling reads back: when
    [json.loads] gives back each record from the text [json.dumps]
    writes for it, [read_all_events] on the files written for lists of
    converted records returns these records, all of them, in the order
    they were written, file after file. *)
Theorem read_all_events_of_converted (files : list (list dict)) :
  (forall events event,
      In events files -> In event events ->
      loads (lit (dumps float_repr (JObj event))) = Loaded (JObj event)) ->
  read_all_events loads (map (converted_text float_repr) files)
  = Completed (map JObj (List.concat files)).
Proof.
  intros Hloads. unfold read_all_events.
  assert (Hfold : forall all_events,
            read_files loads (map (converted_text float_repr) files) all_events
            = Completed (all_events ++ map JObj (List.concat files))%list).
  { induction files as [|events files IH]; intros all_events;
      cbn [map read_files List.concat]; [now rewrite app_nil_r|].
    rewrite file_lines_converted_text, read_lines_converted
      by (intros e He; apply (Hloads events); [now left | exact He]).
    rewrite IH by (intros evs e Hevs He; apply (Hloads evs); [now right | exact He]).
    now rewrite map_app, app_assoc. }
  exact (Hfold []).
Qed.

End ConvertedFiles.

Section ConcreteFiles.
Import Py Json Convert Records Files.

Abbreviation process_utc known :=
  (process_json_file (loads_known known) Library.strptime
     (Library.local_to_seconds 0) Library.int_of_str).

Lemma process_json_file_export_text :
  process_utc [(login_export_line, Loaded (JObj Library.login_event))]
    export_text
  = Completed ([login_record], 1).
Proof. vm_compute. reflexivity. Qed.

(** [process_json_file_accounts] at [export_text]: one record, one line
    skipped, for two lines that are not blank. *)
Lemma process_json_file_accounts_witness :
  len [login_record] + 1 = len (filter counted (file_lines export_text))
  /\ 0 <= 1
  /\ Forall (fun record =>
               truthy_get record (lit "event_type") = true
               /\ (truthy_get record (lit "user_id") = true
                   \/ truthy_get record (lit "device_id") = true))
       [login_record].
Proof.
  apply (process_json_file_accounts
           (loads_known [(login_export_line, Loaded (JObj Library.login_event))])
           Library.strptime (Library.local_to_seconds 0) Library.int_of_str
           export_text [login_record] 1).
  vm_compute. reflexivity.
Defined.

(** A line that [json.loads] refuses with a plain [ValueError], an
    integer of 4301 digits, is fatal: the record of the line before it
    is not returned. *)
Example process_json_file_long_integer :
  process_utc [(login_export_line, Loaded (JObj Library.login_event));
               (long_integer, LoadsRaises (Builtin ValueError))]
    long_integer_text
  = Failed (Builtin ValueError).
Proof. vm_compute. reflexivity. Qed.

(** A line on which [convert_event] raises is fatal as well. *)
Example process_json_file_bad_time :
  process_utc [(login_export_line, Loaded (JObj Library.login_event));
               (bad_time_line, Loaded (JObj [(lit "time", JArr [JInt 1])]))]
    (login_export_line ++ [10%N] ++ bad_time_line ++ [10%N])%list
  = Failed (Builtin TypeError).
Proof. vm_compute. reflexivity. Qed.

(** [read_all_events_of_converted] at two files of one record each. *)
Lemma read_all_events_of_converted_witness :
  read_all_events
    (loads_known [(login_line, Loaded (JObj login_record));
                  (purchase_line, Loaded (JObj Library.purchase_event))])
    (map (converted_text Library.float_repr_unused)
       [[login_record]; [Library.purchase_event]])
  = Completed (map JObj (List.concat [[login_record]; [Library.purchase_event]])).
Proof.
  apply (read_all_events_of_converted Library.float_repr_unused
           (loads_known [(login_line, Loaded (JObj login_record));
                         (purchase_line, Loaded (JObj Library.purchase_event))])).
  - intros f. unfold printable. cbn. repeat constructor; cbn; lia.
  - intros events event [<- | [<- | []]] [<- | []]; vm_compute; reflexivity.
Defined.

End ConcreteFiles.

(* ================================================================= *)
(** ** Properties of [get_auth_header] and [export_data] *)

Section Base64.
Import Py Json ExportData.

Lemma b64_index_char (n : N) :
  (n < 64)%N ->
  b64_index (b64_char n) = Some n /\ Ascii.eqb (b64_char n) pad = false.
Proof.
  intros Hn.
  assert (Hall : forallb
                   (fun m => match b64_index (b64_char m) with
                             | Some k => N.eqb k m
                             | None => false
                             end && negb (Ascii.eqb (b64_char m) pad))
                   (map N.of_nat (seq 0 64)) = true) by (vm_compute; reflexivity).
  rewrite forallb_forall in Hall.
  assert (Hin : In n (map N.of_nat (seq 0 64))).
  { apply in_map_iff. exists (N.to_nat n). split; [apply N2Nat.id|].
    apply in_seq. lia. }
  specialize (Hall n Hin). apply andb_true_iff in Hall as [Hidx Hpad].
  apply negb_true_iff in Hpad. split; [|exact Hpad].
  destruct (b64_index (b64_char n)) as [k|]; [|discriminate Hidx].
  apply N.eqb_eq in Hidx. now subst k.
Qed.

Lemma sextets (a b c : N) :
  (a < 256)%N -> (b < 256)%N -> (c < 256)%N ->
  (a / 4 < 64
   /\ (a mod 4) * 16 + b / 16 < 64
   /\ (b mod 16) * 4 + c / 64 < 64
   /\ c mod 64 < 64
   /\ (a / 4) * 4 + ((a mod 4) * 16 + b / 16) / 16 = a
   /\ (((a mod 4) * 16 + b / 16) mod 16) * 16 + ((b mod 16) * 4 + c / 64) / 4 = b
   /\ (((b mod 16) * 4 + c / 64) mod 4) * 64 + c mod 64 = c)%N.
Proof.
  intros Ha Hb Hc.
  pose proof (N.div_mod a 4 ltac:(discriminate)) as Da.
  pose proof (N.mod_lt a 4 ltac:(discriminate)) as Ra.
  pose proof (N.div_mod b 16 ltac:(discriminate)) as Db.
  pose proof (N.mod_lt b 16 ltac:(discriminate)) as Rb.
  pose proof (N.div_mod c 64 ltac:(discriminate)) as Dc.
  pose proof (N.mod_lt c 64 ltac:(discriminate)) as Rc.
  set (qa := (a / 4)%N) in *. set (ra := (a mod 4)%N) in *.
  set (qb := (b / 16)%N) in *. set (rb := (b mod 16)%N) in *.
  set (qc := (c / 64)%N) in *. set (rc := (c mod 64)%N) in *.
  assert (Hqb : (qb < 16)%N) by lia.
  assert (Hqc : (qc < 4)%N) by lia.
  assert (E2a : ((ra * 16 + qb) / 16 = ra)%N)
    by (symmetry; apply (N.div_unique _ 16 ra qb); lia).
  assert (E2b : ((ra * 16 + qb) mod 16 = qb)%N)
    by (symmetry; apply (N.mod_unique _ 16 ra qb); lia).
  assert (E3a : ((rb * 4 + qc) / 4 = rb)%N)
    by (symmetry; apply (N.div_unique _ 4 rb qc); lia).
  assert (E3b : ((rb * 4 + qc) mod 4 = qc)%N)
    by (symmetry; apply (N.mod_unique _ 4 rb qc); lia).
  rewrite E2a, E2b, E3a, E3b.
  repeat split; lia.
Qed.

(** Lists taken three elements at a time. *)
Lemma list_ind3 {A : Type} (P : list A -> Prop) :
  P [] -> (forall a, P [a]) -> (forall a b, P [a; b]) ->
  (forall a b c l, P l -> P (a :: b :: c :: l)) ->
  forall l, P l.
Proof.
  intros H0 H1 H2 H3 l.
  assert (Hall : P l /\ (forall a, P (a :: l)) /\ (forall a b, P (a :: b :: l))).
  { induction l as [|x l [IH0 [IH1 IH2]]]; [repeat split; auto|].
    repeat split; [apply IH1 | intros a; apply IH2 |].
    intros a b. now apply H3. }
  apply Hall.
Qed.

(** Decoding the encoded bytes gives the bytes. *)
Lemma b64decode_b64encode (data : bytes) :
  Forall (fun byte => (byte < 256)%N) data ->
  b64decode (b64encode data) = Some data.
Proof.
  induction data as [ | a | a b | a b c data IH ] using list_ind3; intros Hdata.
  - reflexivity.
  - inversion Hdata as [|? ? Ha _]; subst.
    destruct (sextets a 0 0 Ha) as [H1 [H2 [_ [_ [E1 _]]]]]; try lia.
    change (0 / 16)%N with 0%N in *. rewrite N.add_0_r in *.
    cbn [b64encode b64decode].
    destruct (b64_index_char _ H1) as [-> _].
    destruct (b64_index_char _ H2) as [-> _].
    change (Ascii.eqb pad pad) with true. cbn iota.
    now rewrite E1.
  - inversion Hdata as [|? ? Ha Hdata']; subst.
    inversion Hdata' as [|? ? Hb _]; subst.
    destruct (sextets a b 0 Ha Hb) as [H1 [H2 [H3 [_ [E1 [E2 _]]]]]]; try lia.
    change (0 / 64)%N with 0%N in *. rewrite N.add_0_r in *.
    cbn [b64encode b64decode].
    destruct (b64_index_char _ H1) as [-> _].
    destruct (b64_index_char _ H2) as [-> _].
    destruct (b64_index_char _ H3) as [-> ->].
    change (Ascii.eqb pad pad) with true. cbn iota.
    now rewrite E1, E2.
  - inversion Hdata as [|? ? Ha Hdata']; subst.
    inversion Hdata' as [|? ? Hb Hdata'']; subst.
    inversion Hdata'' as [|? ? Hc Hrest]; subst.
    destruct (sextets a b c Ha Hb Hc) as [H1 [H2 [H3 [H4 [E1 [E2 E3]]]]]].
    cbn [b64encode b64decode].
    destruct (b64_index_char _ H1) as [-> _].
    destruct (b64_index_char _ H2) as [-> _].
    destruct (b64_index_char _ H3) as [-> ->].
    destruct (b64_index_char _ H4) as [-> ->].
    rewrite (IH Hrest), E1, E2, E3. reflexivity.
Qed.

End Base64.

Section AuthHeader.
Import Py Json ExportData.

Lemma land_63 (x : N) : (N.land x 63 < 64)%N.
Proof.
  change 63%N with (N.ones 6). rewrite N.land_ones.
  apply N.mod_lt. discriminate.
Qed.

Lemma shiftr_lt (x : N) (k m : N) :
  (x < 2 ^ k * m)%N -> (N.shiftr x k < m)%N.
Proof.
  intros Hx. rewrite N.shiftr_div_pow2.
  apply N.Div0.div_lt_upper_bound. exact Hx.
Qed.

Lemma utf8_char_bytes (c : N) (encoded : bytes) :
  (c < 1114112)%N -> utf8_char c = Some encoded ->
  Forall (fun byte => (byte < 256)%N) encoded.
Proof.
  intros Hc. unfold utf8_char.
  assert (B6 : (c < 2048 -> N.shiftr c 6 < 32)%N)
    by (intros H; apply shiftr_lt; cbn; lia).
  assert (B12 : (c < 65536 -> N.shiftr c 12 < 16)%N)
    by (intros H; apply shiftr_lt; cbn; lia).
  assert (B18 : (N.shiftr c 18 < 8)%N) by (apply shiftr_lt; cbn; lia).
  pose proof (land_63 c) as L0.
  pose proof (land_63 (N.shiftr c 6)) as L6.
  pose proof (land_63 (N.shiftr c 12)) as L12.
  set (l0 := N.land c 63) in *.
  set (l6 := N.land (N.shiftr c 6) 63) in *.
  set (l12 := N.land (N.shiftr c 12) 63) in *.
  set (s6 := N.shiftr c 6) in *.
  set (s12 := N.shiftr c 12) in *.
  set (s18 := N.shiftr c 18) in *.
  clearbody l0 l6 l12 s6 s12 s18.
  destruct (c <? 128)%N eqn:H1.
  { apply N.ltb_lt in H1. intros Heq.
    assert (encoded = [c]) by congruence. subst encoded.
    repeat (apply Forall_cons; [lia|]); apply Forall_nil. }
  destruct (c <? 2048)%N eqn:H2.
  { apply N.ltb_lt in H2. specialize (B6 H2). intros Heq.
    assert (encoded = [192 + s6; 128 + l0]%N) by congruence. subst encoded.
    repeat (apply Forall_cons; [lia|]); apply Forall_nil. }
  destruct ((55296 <=? c) && (c <=? 57343))%N; [discriminate|].
  destruct (c <? 65536)%N eqn:H3.
  - apply N.ltb_lt in H3. specialize (B12 H3). intros Heq.
    assert (encoded = [224 + s12; 128 + l6; 128 + l0]%N) by congruence.
    subst encoded.
    repeat (apply Forall_cons; [lia|]); apply Forall_nil.
  - intros Heq.
    assert (encoded = [240 + s18; 128 + l12; 128 + l6; 128 + l0]%N)
      by congruence.
    subst encoded.
    repeat (apply Forall_cons; [lia|]); apply Forall_nil.
Qed.

Lemma utf8_encode_bytes (s : str) :
  Forall (fun c => (c < 1114112)%N) s ->
  forall encoded,
    utf8_encode s = Some encoded ->
    Forall (fun byte => (byte < 256)%N) encoded.
Proof.
  induction 1 as [|c s Hc _ IH]; intros encoded; cbn [utf8_encode].
  - intros [= <-]. constructor.
  - destruct (utf8_char c) as [b|] eqn:Hb; [|discriminate].
    destruct (utf8_encode s) as [bs|]; [|discriminate].
    intros [= <-]. apply Forall_app. split.
    + now apply (utf8_char_bytes c).
    + now apply IH.
Qed.

(** The credentials can be read off the output of [export_data]: the
    first line it prints is [Auth header: Basic ] followed by a text
    whose base64 decoding is the UTF-8 encoding of the key, a colon and
    the secret key; this holds whatever the server answers. *)
Theorem export_data_prints_credentials
    (api_key secret_key start end_ : str) (eu : bool) (answer : response)
    (header : string) :
  Forall (fun c => (c < 1114112)%N) (api_key ++ secret_key)%list ->
  get_auth_header api_key secret_key = Ok header ->
  exists encoded rest,
    header = ("Basic " ++ encoded)%string
    /\ fst (export_data api_key secret_key start end_ eu answer)
       = (lit "Auth header: Basic " ++ lit encoded)%list :: rest
    /\ exists credentials,
         utf8_encode (api_key ++ 58%N :: secret_key)%list = Some credentials
         /\ b64decode encoded = Some credentials.
Proof.
  intros Hpoints Hheader.
  unfold export_data. rewrite Hheader.
  unfold get_auth_header in Hheader.
  destruct (utf8_encode (api_key ++ 58%N :: secret_key)%list)
    as [credentials|] eqn:Henc; [|discriminate].
  injection Hheader as <-.
  exists (b64encode credentials).
  assert (Hdec : b64decode (b64encode credentials) = Some credentials).
  { apply b64decode_b64encode.
    apply (utf8_encode_bytes (api_key ++ 58%N :: secret_key)%list);
      [|exact Henc].
    apply Forall_app in Hpoints as [Hk Hs].
    apply Forall_app. split; [exact Hk|]. constructor; [lia | exact Hs]. }
  destruct answer as [data | code reason]; cbn [fst app];
    eexists; (split; [reflexivity|]); (split; [reflexivity|]);
    exists credentials; now split.
Qed.

End AuthHeader.

Section ExtractToFolder.
Import Py Json Files ExportData.

Lemma starts_with_app (a b : str) :
  starts_with a b = true <-> exists t, b = (a ++ t)%list.
Proof.
  revert b. induction a as [|x a IH]; intros b; cbn [starts_with app].
  - split; [intros _; now exists b | reflexivity].
  - destruct b as [|y b]; [split; [discriminate | intros [t Ht]; discriminate Ht]|].
    rewrite andb_true_iff, N.eqb_eq, IH. split.
    + intros [-> [t ->]]. now exists t.
    + intros [t [= -> ->]]. split; [reflexivity | now exists t].
Qed.

Lemma ends_with_app (suffix text : str) :
  ends_with suffix text = true <-> exists t, text = (t ++ suffix)%list.
Proof.
  unfold ends_with. rewrite starts_with_app. split.
  - intros [t Ht]. exists (rev t).
    rewrite <- (rev_involutive text), Ht, rev_app_distr, rev_involutive.
    reflexivity.
  - intros [t ->]. exists (rev t). now rewrite rev_app_distr.
Qed.

Lemma ends_with_json_gz (text : str) :
  ends_with (lit ".json.gz") text = true ->
  ends_with (lit ".gz") text = true /\ ends_with (lit ".json") text = false.
Proof.
  intros H. apply ends_with_app in H as [t ->]. split.
  - apply ends_with_app. exists (t ++ lit ".json")%list.
    now rewrite <- app_assoc.
  - destruct (ends_with (lit ".json") (t ++ lit ".json.gz")%list) eqn:He;
      [|reflexivity].
    unfold ends_with in He. rewrite rev_app_distr in He.
    cbn in He. discriminate He.
Qed.

Lemma last_cons_nonempty {A : Type} (x : A) (l : list A) (d : A) :
  l <> [] -> last (x :: l) d = last l d.
Proof. destruct l; [contradiction | reflexivity]. Qed.

Lemma last_close_part (part : str) (tail : list str) :
  tail <> [] -> last (close_part part tail) [] = last tail [].
Proof.
  intros Hne. unfold close_part.
  destruct part as [|y part]; [reflexivity|].
  destruct (str_eqb (y :: part) (lit ".")); [reflexivity|].
  now apply last_cons_nonempty.
Qed.

(** The last part of a path that ends with a character other than a
    slash or a dot: the run after the last slash. *)
Lemma path_parts_last (c : N) (path : str) :
  c <> 47%N -> c <> 46%N ->
  forall part,
    ~ In 47%N part ->
    exists run,
      last (path_parts_from part (path ++ [c])%list) [] = (run ++ [c])%list
      /\ ~ In 47%N run.
Proof.
  intros Hslash Hdot.
  induction path as [|x path IH]; intros part Hpart; cbn [app path_parts_from].
  - apply N.eqb_neq in Hslash. rewrite Hslash. cbn [path_parts_from].
    exists (rev part). split.
    + unfold close_part.
      assert (Hne : str_eqb (c :: part) (lit ".") = false).
      { apply str_eqb_neq. intros [= Hc _]. contradiction. }
      rewrite Hne. reflexivity.
    + intros Hin. apply in_rev in Hin. contradiction.
  - destruct (x =? 47)%N eqn:Hx.
    + destruct (IH [] ltac:(intros [])) as [run [Hlast Hrun]].
      exists run. split; [|exact Hrun].
      rewrite last_close_part; [exact Hlast|].
      intros Hnil. rewrite Hnil in Hlast. cbn in Hlast. now destruct run.
    + apply IH. intros [Heq | Hin]; [|contradiction].
      subst x. discriminate Hx.
Qed.

Lemma path_name_run (suffix text : str) (c : N) (before : str) :
  suffix = (before ++ [c])%list -> c <> 47%N -> c <> 46%N ->
  ends_with suffix text = true ->
  exists run, path_name text = (run ++ [c])%list /\ ~ In 47%N run.
Proof.
  intros -> Hslash Hdot Hend.
  apply ends_with_app in Hend as [t ->].
  rewrite app_assoc. unfold path_name.
  apply path_parts_last; [assumption.. | intros []].
Qed.

Lemma firstn_subset {A : Type} (n : nat) (l : list A) (x : A) :
  In x (firstn n l) -> In x l.
Proof.
  intros Hin. rewrite <- (firstn_skipn n l). apply in_or_app. now left.
Qed.

(** The stem of a path whose name holds no slash holds none either, and
    is not empty when the name is not. *)
Lemma path_stem_run (text : str) :
  path_name text <> [] -> ~ In 47%N (path_name text) ->
  path_stem text <> [] /\ ~ In 47%N (path_stem text).
Proof.
  intros Hne Hslash. unfold path_stem.
  destruct (rfind_dot (path_name text)) as [i|]; [|now split].
  destruct ((0 <? i)%nat && (i <? List.length (path_name text) - 1)%nat) eqn:Hi;
    [|now split].
  apply andb_true_iff in Hi as [Hpos _]. apply Nat.ltb_lt in Hpos.
  split.
  - destruct (path_name text) as [|x name]; [contradiction|].
    destruct i; [lia | discriminate].
  - intros Hin. apply Hslash. now apply (firstn_subset i).
Qed.

Lemma written_name_plain (zip_info : str) :
  extracted zip_info = true ->
  written_name zip_info <> []
  /\ ~ In 47%N (written_name zip_info).
Proof.
  unfold extracted, written_name. intros Hext.
  destruct (ends_with (lit ".json") zip_info) eqn:Hjson.
  - destruct (path_name_run (lit ".json") zip_info 110 (lit ".jso"))
      as [run [-> Hrun]]; [reflexivity | discriminate | discriminate | exact Hjson |].
    split; [now destruct run|].
    intros Hin. apply in_app_or in Hin as [Hin | [Hin | []]];
      [contradiction | discriminate Hin].
  - cbn [orb] in Hext.
    destruct (path_name_run (lit ".gz") zip_info 122 (lit ".g"))
      as [run [Hname Hrun]]; [reflexivity | discriminate | discriminate | exact Hext |].
    apply path_stem_run; rewrite Hname.
    + now destruct run.
    + intros Hin. apply in_app_or in Hin as [Hin | [Hin | []]];
        [contradiction | discriminate Hin].
Qed.

Variable gzip_decompress : bytes -> option bytes.

Lemma write_file_cases (files files' : list (str * bytes)) (name : str)
    (data : bytes) :
  write_file files name data = Some files' ->
  files' = (files ++ [(name, data)])%list
  /\ name <> lit "." /\ name <> lit "..".
Proof.
  unfold write_file.
  destruct (str_eqb name (lit ".")) eqn:H1; [discriminate|].
  destruct (str_eqb name (lit "..")) eqn:H2; [discriminate|].
  intros [= <-]. apply str_eqb_neq in H1, H2. now repeat split.
Qed.

(** One member: an exception leaves the loop before anything is
    written, or the member is passed over, or it is written under its
    name in the folder and counted. *)
Lemma extract_member_cases (archive : list (str * bytes))
    (files : list (str * bytes)) (json_count : Z) (zip_info : str) :
  extract_member gzip_decompress archive (files, json_count) zip_info
  = (files, None)
  \/ (extracted zip_info = false
      /\ extract_member gzip_decompress archive (files, json_count) zip_info
         = (files, Some json_count))
  \/ (extracted zip_info = true
      /\ plain_name (written_name zip_info)
      /\ exists data,
           extract_member gzip_decompress archive (files, json_count) zip_info
           = ((files ++ [(written_name zip_info, data)])%list,
              Some (json_count + 1))).
Proof.
  unfold extract_member.
  destruct (zip_read archive zip_info) as [file_data|]; [|now left].
  assert (Hwrite : forall data,
            extracted zip_info = true ->
            match write_file files (written_name zip_info) data with
            | Some files' => (files', Some (json_count + 1))
            | None => (files, None)
            end = (files, None)
            \/ (extracted zip_info = true
                /\ plain_name (written_name zip_info)
                /\ exists data',
                     match write_file files (written_name zip_info) data with
                     | Some files' => (files', Some (json_count + 1))
                     | None => (files, None)
                     end
                     = ((files ++ [(written_name zip_info, data')])%list,
                        Some (json_count + 1)))).
  { intros data Hext.
    destruct (write_file files (written_name zip_info) data) as [files'|] eqn:Hw;
      [|now left].
    apply write_file_cases in Hw as [-> [Hdot Hdots]].
    destruct (written_name_plain zip_info Hext) as [Hne Hslash].
    right. split; [exact Hext|]. split; [now repeat split | now exists data]. }
  destruct (ends_with (lit ".json.gz") zip_info) eqn:Hjgz.
  { apply ends_with_json_gz in Hjgz as [Hgz Hjson].
    assert (Hext : extracted zip_info = true)
      by (unfold extracted; now rewrite Hgz, orb_true_r).
    assert (Hname : path_stem zip_info = written_name zip_info)
      by (unfold written_name; now rewrite Hjson).
    rewrite Hname.
    destruct (gzip_decompress file_data) as [decompressed|]; [|now left].
    destruct (Hwrite decompressed Hext) as [H | H]; [now left | now right; right]. }
  destruct (ends_with (lit ".json") zip_info) eqn:Hjson.
  { assert (Hext : extracted zip_info = true)
      by (unfold extracted; now rewrite Hjson).
    assert (Hname : path_name zip_info = written_name zip_info)
      by (unfold written_name; now rewrite Hjson).
    rewrite Hname.
    destruct (Hwrite file_data Hext) as [H | H]; [now left | now right; right]. }
  destruct (ends_with (lit ".gz") zip_info) eqn:Hgz.
  { assert (Hext : extracted zip_info = true)
      by (unfold extracted; now rewrite Hgz, orb_true_r).
    assert (Hname : path_stem zip_info = written_name zip_info)
      by (unfold written_name; now rewrite Hjson).
    rewrite Hname.
    destruct (gzip_decompress file_data) as [decompressed|]; [|now left].
    destruct (Hwrite decompressed Hext) as [H | H]; [now left | now right; right]. }
  right; left. split; [|reflexivity].
  unfold extracted. now rewrite Hjson, Hgz.
Qed.

(** The loop, when it completes. *)
Lemma extract_members_spec (archive : list (str * bytes)) (names : list str) :
  forall files json_count files' json_count',
    extract_members gzip_decompress archive names (files, json_count)
    = (files', Some json_count') ->
    json_count' = json_count + len (filter extracted names)
    /\ map fst files'
       = (map fst files ++ map written_name (filter extracted names))%list.
Proof.
  induction names as [|zip_info names IH];
    intros files json_count files' json_count'; cbn [extract_members filter].
  - cbn [fst snd]. intros [= <- <-]. unfold len; cbn. rewrite app_nil_r.
    split; [lia | reflexivity].
  - destruct (extract_member_cases archive files json_count zip_info)
      as [-> | [[Hext ->] | [Hext [_ [data ->]]]]]; [discriminate | |];
      rewrite Hext; intros Hrest; apply IH in Hrest as [Hcount Hnames].
    + split; assumption.
    + unfold len in *; cbn [List.length map] in *.
      rewrite map_app in Hnames; cbn [map fst] in Hnames.
      rewrite <- app_assoc in Hnames.
      split; [lia | exact Hnames].
Qed.

(** The loop, however it ends: the files written so far are entries of
    the folder, and their names are the first names that a complete run
    would write. *)
Lemma extract_members_plain (archive : list (str * bytes)) (names : list str) :
  forall files json_count,
    Forall (fun file => plain_name (fst file)) files ->
    Forall (fun file => plain_name (fst file))
      (fst (extract_members gzip_decompress archive names (files, json_count)))
    /\ exists n,
         map fst
           (fst (extract_members gzip_decompress archive names
                   (files, json_count)))
         = (map fst files
            ++ firstn n (map written_name (filter extracted names)))%list.
Proof.
  induction names as [|zip_info names IH]; intros files json_count Hfiles;
    cbn [extract_members filter].
  - cbn [fst]. split; [exact Hfiles|]. exists O. now rewrite app_nil_r.
  - destruct (extract_member_cases archive files json_count zip_info)
      as [-> | [[Hext ->] | [Hext [Hplain [data ->]]]]]; try rewrite Hext.
    + cbn [fst]. split; [exact Hfiles|]. exists O.
      cbn [firstn]. now rewrite app_nil_r.
    + now apply IH.
    + assert (Hfiles' : Forall (fun file => plain_name (fst file))
                          (files ++ [(written_name zip_info, data)])%list).
      { apply Forall_app. split; [exact Hfiles | now constructor]. }
      destruct (IH _ (json_count + 1) Hfiles') as [Hall [n Hn]].
      split; [exact Hall|]. exists (S n).
      rewrite Hn, map_app. cbn [map fst firstn].
      now rewrite <- app_assoc.
Qed.

(** What [extract_to_folder] counts and writes, when it returns: the
    count returned is the number of members whose name ends in [.json]
    or [.gz], one write is made for each of them, in the order of the
    archive, under the last component of its name (without [.gz]), and
    no other member is written. Members of different folders of the
    archive that share this component are counted separately but land
    in the same file. *)
Theorem extract_to_folder_counts (archive : list (str * bytes))
    (files : list (str * bytes)) (json_count : Z) :
  extract_to_folder gzip_decompress archive = (files, Some json_count) ->
  json_count = len (filter extracted (map fst archive))
  /\ json_count = len files
  /\ map fst files = map written_name (filter extracted (map fst archive)).
Proof.
  unfold extract_to_folder. intros Hret.
  apply extract_members_spec in Hret as [Hcount Hnames].
  cbn [map app] in Hnames.
  split; [lia | split; [|exact Hnames]].
  rewrite Hcount. unfold len.
  rewrite <- (length_map fst files), Hnames, length_map. lia.
Qed.

(** [extract_to_folder] never writes outside the output folder, whether
    it returns or raises: every file written by the time it ends has a
    name that is not empty, holds no slash and is neither [.] nor [..],
    whatever the names of the members of the archive (absolute, or
    climbing with [..]); and the names written are the first ones of
    the list that a complete run writes, so an exception only cuts the
    extraction short. *)
Theorem extract_to_folder_stays_in_folder (archive : list (str * bytes)) :
  Forall (fun file =>
            fst file <> [] /\ ~ In 47%N (fst file)
            /\ fst file <> lit "." /\ fst file <> lit "..")
    (fst (extract_to_folder gzip_decompress archive))
  /\ exists n,
       map fst (fst (extract_to_folder gzip_decompress archive))
       = firstn n (map written_name (filter extracted (map fst archive))).
Proof.
  unfold extract_to_folder.
  destruct (extract_members_plain archive (map fst archive) [] 0
              (Forall_nil _)) as [Hall Hnames].
  split; [exact Hall | exact Hnames].
Qed.

End ExtractToFolder.

Section ConcreteExport.
Import Py Json ExportData.

(** No member of [sample_archive] is compressed: a decompression that
    always raises is never called. *)
Abbreviation no_gzip := (fun _ : bytes => @None bytes).

Lemma extract_sample_archive :
  extract_to_folder no_gzip sample_archive
  = ([ (lit "events.json", [123%N; 125%N]);
       (lit "events.json", [91%N; 93%N]) ], Some 2).
Proof. vm_compute. reflexivity. Qed.

(** [extract_to_folder_counts] at [sample_archive]: two members counted,
    both written as [events.json]. *)
Lemma extract_to_folder_counts_witness :
  2 = len (filter extracted (map fst sample_archive))
  /\ 2 = len [ (lit "events.json", [123%N; 125%N]);
               (lit "events.json", [91%N; 93%N]) ]
  /\ map fst [ (lit "events.json", [123%N; 125%N]);
               (lit "events.json", [91%N; 93%N]) ]
     = map written_name (filter extracted (map fst sample_archive)).
Proof.
  apply (extract_to_folder_counts no_gzip sample_archive).
  exact extract_sample_archive.
Defined.

(** On [broken_archive] the decompression of the second member raises:
    the function raises, the first member has been written, under its
    last component, and the third is not extracted. *)
Example extract_broken_archive :
  extract_to_folder no_gzip broken_archive
  = ([ (lit "events.json", [123%N; 125%N]) ], None).
Proof. vm_compute. reflexivity. Qed.

(** [export_data_prints_credentials] at the key [key] and the secret
    [secret]. *)
Lemma export_data_prints_credentials_witness :
  exists encoded rest,
    "Basic a2V5OnNlY3JldA=="%string = ("Basic " ++ encoded)%string
    /\ fst (export_data (lit "key") (lit "secret") (lit "20240101T00")
              (lit "20240101T23") false (HTTPError 404 (lit "Not Found")))
       = (lit "Auth header: Basic " ++ lit encoded)%list :: rest
    /\ exists credentials,
         utf8_encode (lit "key" ++ 58%N :: lit "secret")%list = Some credentials
         /\ b64decode encoded = Some credentials.
Proof.
  apply (export_data_prints_credentials (lit "key") (lit "secret")).
  - repeat constructor.
  - reflexivity.
Defined.

End ConcreteExport.
